(** * voicechat2: a shallow embedding of the streaming orchestrator

    Model of [src/voicechat2.py]: the sentence sanitizer [process_sentence]
    (four [re.sub] passes and [str.strip]), the latency bookkeeping of
    [ConversationManager], and the websocket turn loop
    ([websocket_endpoint], [process_and_stream], [generate_llm_response],
    [generate_and_send_tts]) as a state-and-error monad that records every
    message sent on the websocket and every call to an external service in
    a trace.

    A Python [str] is a list of code points ([list N]). *)

From Stdlib Require Import List NArith QArith String Ascii Bool Lia.
Import ListNotations.

Open Scope nat_scope.
Open Scope list_scope.

(** ** Python strings *)

Definition pstr := list N.

Fixpoint pstr_eqb (a b : pstr) : bool :=
  match a, b with
  | [], [] => true
  | x :: a', y :: b' => N.eqb x y && pstr_eqb a' b'
  | _, _ => false
  end.

(** String literal (ASCII) to code points. *)
Definition lit (s : string) : pstr := map (fun a => N_of_ascii a) (list_ascii_of_string s).

Definition c_tilde : N := 126.
Definition c_bang : N := 33.
Definition c_dquote : N := 34.
Definition c_lpar : N := 40.
Definition c_rpar : N := 41.
Definition c_star : N := 42.
Definition c_under : N := 95.
Definition c_nl : N := 10.
Definition c_dot : N := 46.
Definition c_qmark : N := 63.

(** ** [re.sub] with a pattern that never matches the empty string

    A matcher returns the length of the leftmost match starting at the head
    of the string.  [re.sub] scans left to right; at each position it
    either replaces a match and resumes after it, or copies one character. *)

Fixpoint re_sub (matcher : pstr -> option nat) (repl : pstr) (fuel : nat)
    (s : pstr) : pstr :=
  match fuel with
  | O => s
  | S f =>
      match s with
      | [] => []
      | c :: r =>
          match matcher s with
          | Some (S k) => repl ++ re_sub matcher repl f (skipn (S k) s)
          | _ => c :: re_sub matcher repl f r
          end
      end
  end.

Definition sub (matcher : pstr -> option nat) (repl : pstr) (s : pstr) : pstr :=
  re_sub matcher repl (S (List.length s)) s.

(** Length of the leading run of characters satisfying [p]. *)
Fixpoint run_len (p : N -> bool) (s : pstr) : nat :=
  match s with
  | c :: r => if p c then S (run_len p r) else O
  | [] => O
  end.

(** [~+] (greedy). *)
Definition m_tildes (s : pstr) : option nat :=
  match run_len (N.eqb c_tilde) s with
  | O => None
  | n => Some n
  end.

(** [\(.*?\)]: the lazy [.*?] stops at the first [)]; [.] does not match a
    newline, so a newline before the first [)] makes the match fail. *)
Fixpoint lazy_close (s : pstr) : option nat :=
  match s with
  | [] => None
  | c :: r =>
      if N.eqb c c_rpar then Some 1
      else if N.eqb c c_nl then None
      else option_map S (lazy_close r)
  end.

Definition m_paren (s : pstr) : option nat :=
  match s with
  | c :: r => if N.eqb c c_lpar then option_map S (lazy_close r) else None
  | [] => None
  end.

(** [\*[^*]+\*]: the greedy [[^*]+] takes the whole run of non-[d]
    characters; backtracking cannot help, since a shorter run is followed
    by a non-[d] character. *)
Definition m_delim (d : N) (s : pstr) : option nat :=
  match s with
  | c :: r =>
      if N.eqb c d then
        match run_len (fun x => negb (N.eqb x d)) r with
        | O => None
        | n => match skipn n r with
               | c' :: _ => if N.eqb c' d then Some (S (S n)) else None
               | [] => None
               end
        end
      else None
  | [] => None
  end.

(** The emphasis pattern of line 463, star span or underscore span: first
    alternative, then the second. *)
Definition m_emph (s : pstr) : option nat :=
  match m_delim c_star s with
  | Some n => Some n
  | None => m_delim c_under s
  end.

(** [[^\x00-\x7F]+]. *)
Definition m_nonascii (s : pstr) : option nat :=
  match run_len (fun c => N.leb 128 c) s with
  | O => None
  | n => Some n
  end.

(** [str.isspace] on one code point (Python's whitespace set). *)
Definition is_space (c : N) : bool :=
  ((9 <=? c) && (c <=? 13))%N || ((28 <=? c) && (c <=? 32))%N
  || N.eqb c 133 || N.eqb c 160 || N.eqb c 5760
  || ((8192 <=? c) && (c <=? 8202))%N
  || N.eqb c 8232 || N.eqb c 8233 || N.eqb c 8239 || N.eqb c 8287
  || N.eqb c 12288.

Fixpoint lstrip (s : pstr) : pstr :=
  match s with
  | c :: r => if is_space c then lstrip r else s
  | [] => []
  end.

Definition strip (s : pstr) : pstr := rev (lstrip (rev (lstrip s))).

(** [process_sentence] (lines 460-465). *)
Definition process_sentence (sentence : pstr) : pstr :=
  let sentence := sub m_tildes [c_bang] sentence in
  let sentence := sub m_paren [] sentence in
  let sentence := sub m_emph [] sentence in
  let sentence := sub m_nonascii [] sentence in
  strip sentence.


(** ** Latency bookkeeping ([ConversationManager], lines 59-100)

    Timestamps are Python floats; the values used below are small dyadic
    rationals, on which float subtraction is exact, so they are modelled
    as [Q]. *)

Record latency_metrics := mkMetrics {
  start_time : Q; srt_start : Q; srt_end : Q; llm_start : Q;
  llm_first_token : Q; llm_first_sentence : Q; tts_start : Q; tts_end : Q;
  first_audio_response : Q }.

Inductive metric :=
| SrtStart | SrtEnd | LlmStart | LlmFirstToken | LlmFirstSentence
| TtsStart | TtsEnd | FirstAudioResponse.

(** [metrics[metric] = value] (line 88). *)
Definition set_metric (m : latency_metrics) (k : metric) (v : Q) : latency_metrics :=
  let '(mkMetrics st ss se ls lt lf ts te fa) := m in
  match k with
  | SrtStart => mkMetrics st v se ls lt lf ts te fa
  | SrtEnd => mkMetrics st ss v ls lt lf ts te fa
  | LlmStart => mkMetrics st ss se v lt lf ts te fa
  | LlmFirstToken => mkMetrics st ss se ls v lf ts te fa
  | LlmFirstSentence => mkMetrics st ss se ls lt v ts te fa
  | TtsStart => mkMetrics st ss se ls lt lf v te fa
  | TtsEnd => mkMetrics st ss se ls lt lf ts v fa
  | FirstAudioResponse => mkMetrics st ss se ls lt lf ts te v
  end.

(** The dictionary installed by [reset_latency_metrics] (lines 75-85). *)
Definition fresh_metrics (now : Q) : latency_metrics :=
  mkMetrics now 0 0 0 0 0 0 0 0.

Record latencies := mkLatencies {
  total_voice_to_voice : Q; srt_duration : Q; llm_ttft : Q; llm_ttfs : Q;
  tts_duration : Q }.

(** [calculate_latencies] (lines 90-100), on the session's metrics. *)
Definition calculate_latencies (metrics : latency_metrics) : latencies :=
  let start_time := start_time metrics in
  {| total_voice_to_voice := first_audio_response metrics - start_time;
     srt_duration := srt_end metrics - srt_start metrics;
     llm_ttft := llm_first_token metrics - llm_start metrics;
     llm_ttfs := llm_first_sentence metrics - llm_start metrics;
     tts_duration := tts_end metrics - tts_start metrics |}.

(** ** Session state (one entry of [ConversationManager.sessions]) *)

Inductive role := System | User | Assistant.

Record message := mkMessage { role_of : role; content_of : pstr }.

Definition SYSTEM : message :=
  mkMessage System (lit "You are a helpful AI voice assistant which can answer patient details to the doctor. You can also execute supabase queries to get patient details. Do not make up any information, only answer based on the information you have. Do not entertain any other questions.").

Definition audio := list N.

Record session := mkSession {
  conversation : list message;
  llm_output_sentences : list pstr;
  current_turn : nat;
  is_processing : bool;
  audio_buffer : audio;
  last_activity : Q;
  first_audio_sent : bool;
  latency : latency_metrics }.

Definition set_conversation (c : list message) (s : session) : session :=
  mkSession c (llm_output_sentences s) (current_turn s) (is_processing s)
    (audio_buffer s) (last_activity s) (first_audio_sent s) (latency s).
Definition set_llm_output_sentences (l : list pstr) (s : session) : session :=
  mkSession (conversation s) l (current_turn s) (is_processing s)
    (audio_buffer s) (last_activity s) (first_audio_sent s) (latency s).
Definition set_current_turn (n : nat) (s : session) : session :=
  mkSession (conversation s) (llm_output_sentences s) n (is_processing s)
    (audio_buffer s) (last_activity s) (first_audio_sent s) (latency s).
Definition set_is_processing (b : bool) (s : session) : session :=
  mkSession (conversation s) (llm_output_sentences s) (current_turn s) b
    (audio_buffer s) (last_activity s) (first_audio_sent s) (latency s).
Definition set_audio_buffer (a : audio) (s : session) : session :=
  mkSession (conversation s) (llm_output_sentences s) (current_turn s)
    (is_processing s) a (last_activity s) (first_audio_sent s) (latency s).
Definition set_last_activity (t : Q) (s : session) : session :=
  mkSession (conversation s) (llm_output_sentences s) (current_turn s)
    (is_processing s) (audio_buffer s) t (first_audio_sent s) (latency s).
Definition set_first_audio_sent (b : bool) (s : session) : session :=
  mkSession (conversation s) (llm_output_sentences s) (current_turn s)
    (is_processing s) (audio_buffer s) (last_activity s) b (latency s).
Definition set_latency (m : latency_metrics) (s : session) : session :=
  mkSession (conversation s) (llm_output_sentences s) (current_turn s)
    (is_processing s) (audio_buffer s) (last_activity s) (first_audio_sent s) m.

(** ** Observable events

    JSON messages and binary frames sent on the websocket, the closing of
    the socket, and the calls made to the external services. *)

Inductive json_out :=
| JPong
| JTranscription (t : pstr)
| JText (t : pstr)
| JFirstAudio
| JInterrupted
| JLatency (l : latencies)
| JError (msg : pstr)
| JProcessingComplete.

Inductive event :=
| SendJson (j : json_out)
| SendBytes (a : audio)
| Close (reason : pstr)
| CallSTT (a : audio)
| CallLLM (messages : list message)
| ReadChunk
| CallTTS (text : pstr).

(** Python exceptions raised on the paths modelled. *)
Inductive exn :=
| ValueError (msg : pstr)
| ServiceError (msg : pstr)
| TypeError
| UnboundLocalError (var : pstr)
| RecursionError
| AttributeError (type_name : pstr).

(** [str(e)]. *)
Definition exn_str (e : exn) : pstr :=
  match e with
  | ValueError m => m
  | ServiceError m => m
  | TypeError =>
      lit "can only concatenate str (not " ++ [c_dquote] ++ lit "NoneType" ++ [c_dquote]
        ++ lit ") to str"
  | UnboundLocalError v =>
      lit "cannot access local variable '" ++ v
        ++ lit "' where it is not associated with a value"
  | RecursionError => lit "maximum recursion depth exceeded"
  | AttributeError n => lit "'" ++ n ++ lit "' object has no attribute 'get'"
  end.

(** ** A state and exception monad

    The state is the session, the trace of events so far, and the number of
    [time.time()] readings taken.  An exception keeps the state reached:
    what was sent before it stays sent. *)

Record St := mkSt { sess : session; trace : list event; ticks : nat }.

Inductive res (A : Type) := Ok (a : A) | Err (e : exn).
Arguments Ok {A} a.
Arguments Err {A} e.

Definition M (A : Type) := St -> res A * St.

Definition ret {A} (a : A) : M A := fun s => (Ok a, s).

Definition bind {A B} (m : M A) (k : A -> M B) : M B :=
  fun s => match m s with
           | (Ok a, s') => k a s'
           | (Err e, s') => (Err e, s')
           end.

Notation "x <- m ;; k" := (bind m (fun x => k))
  (at level 61, m at next level, right associativity).
Notation "m ;;; k" := (bind m (fun _ : unit => k))
  (at level 61, right associativity).

Definition raise {A} (e : exn) : M A := fun s => (Err e, s).

(** [try: m except Exception as e: h(e)]. *)
Definition try_except {A} (m : M A) (h : exn -> M A) : M A :=
  fun s => match m s with
           | (Err e, s') => h e s'
           | r => r
           end.

(** [try: m finally: f]. *)
Definition try_finally {A} (m : M A) (f : M unit) : M A :=
  fun s => let '(r, s') := m s in
           match f s' with
           | (Ok _, s'') => (r, s'')
           | (Err e, s'') => (Err e, s'')
           end.

Definition emit (e : event) : M unit :=
  fun s => (Ok tt, mkSt (sess s) (trace s ++ [e]) (ticks s)).

Definition send_json (j : json_out) : M unit := emit (SendJson j).

Definition get_sess : M session := fun s => (Ok (sess s), s).

Definition modify_sess (f : session -> session) : M unit :=
  fun s => (Ok tt, mkSt (f (sess s)) (trace s) (ticks s)).

(** ** Streamed completion chunks ([chunk.choices[0].delta]) *)

(** [tool.function]: [name] and [arguments] are optional fields of the
    SDK object, so [hasattr] holds for both and a missing piece is [None]. *)
Record tool_call := mkToolCall { fn_name : option pstr; fn_arguments : option pstr }.

Record chunk := mkChunk { delta_content : option pstr; delta_tool_calls : list tool_call }.

(** [content.endswith((".", "!", "?"))]. *)
Definition ends_with_punct (s : pstr) : bool :=
  match rev s with
  | c :: _ => N.eqb c c_dot || N.eqb c c_bang || N.eqb c c_qmark
  | [] => false
  end.

(** Local variables of [generate_llm_response]. *)
Record locals := mkLocals {
  complete_text : pstr;
  accumulated_text : pstr;
  first_token_received : bool;
  first_sentence_received : bool;
  tools : list tool_call }.

Definition init_locals : locals := mkLocals [] [] false false [].

Definition PLEASE_WAIT : pstr := lit "Please wait while I get the patient details...".
Definition APOLOGY : pstr :=
  lit "I am sorry, I am unable to get the patient details at this time. Please make sure the patient code is correct.".
Definition SUMMARIZE_PREFIX : pstr :=
  lit "Sumarize this result in simple language keep it breif, remove all punctuation: ".

(** Python's default recursion limit bounds the nesting of function-call
    sub-turns; any bound larger than the nesting of a run gives the same
    run. *)
Definition recursion_limit : nat := 100.

Section Orchestrator.

(** The external collaborators.  [None] stands for an exception raised by
    the call (network failure, malformed reply). *)
Variable stt : audio -> option pstr.                 (* SRT_ENDPOINT, [result["text"]] *)
Variable llm : list message -> list chunk * bool.    (* chunks yielded; [false]: the stream raises after them *)
Variable tts : pstr -> option audio.                 (* TTS_ENDPOINT, [response.read()] *)
Variable lookup : pstr -> option pstr.               (* [str(eval(json.loads(q)["supabase_query"]))] *)
Variable clock : nat -> Q.                           (* the n-th reading of [time.time()] *)

Definition time_time : M Q :=
  fun s => (Ok (clock (ticks s)), mkSt (sess s) (trace s) (S (ticks s))).

Definition update_latency_metric (k : metric) (v : Q) : M unit :=
  modify_sess (fun se => set_latency (set_metric (latency se) k v) se).

Definition reset_latency_metrics : M unit :=
  t <- time_time ;; modify_sess (set_latency (fresh_metrics t)).

Definition add_user_message (text : pstr) : M unit :=
  modify_sess (fun se => set_current_turn (S (current_turn se))
                 (set_conversation (conversation se ++ [mkMessage User text]) se)) ;;;
  t <- time_time ;; modify_sess (set_last_activity t).

Definition add_ai_message (text : pstr) : M unit :=
  modify_sess (fun se => set_current_turn (S (current_turn se))
                 (set_conversation (conversation se ++ [mkMessage Assistant text]) se)) ;;;
  t <- time_time ;; modify_sess (set_last_activity t).

(** [transcribe_audio] (lines 144-179). *)
Definition transcribe_audio (audio_data : audio) : M pstr :=
  t <- time_time ;; update_latency_metric SrtStart t ;;;
  emit (CallSTT audio_data) ;;;
  match stt audio_data with
  | None => raise (ServiceError (lit "Transcription error"))
  | Some text => t' <- time_time ;; update_latency_metric SrtEnd t' ;;; ret text
  end.

(** [generate_and_send_tts] (lines 441-445). *)
Definition generate_and_send_tts (text : pstr) : M unit :=
  emit (CallTTS text) ;;;
  match tts text with
  | None => raise (ServiceError (lit "TTS error"))
  | Some opus_data => emit (SendBytes opus_data)
  end.

(** The [first_audio_sent] gate, written twice in the source
    (lines 362-372 and 421-427). *)
Definition first_audio_gate : M unit :=
  se <- get_sess ;;
  if first_audio_sent se then ret tt
  else t <- time_time ;; update_latency_metric FirstAudioResponse t ;;;
       send_json JFirstAudio ;;;
       modify_sess (set_first_audio_sent true).

(** Recording [llm_first_sentence] and [tts_start] on the first sentence
    (lines 351-358 and 411-418). *)
Definition first_sentence_mark (l : locals) : M locals :=
  if first_sentence_received l then ret l
  else t <- time_time ;; update_latency_metric LlmFirstSentence t ;;;
       t' <- time_time ;; update_latency_metric TtsStart t' ;;;
       ret (mkLocals (complete_text l) (accumulated_text l)
              (first_token_received l) true (tools l)).

(** One iteration of the [for chunk in ...] loop (lines 336-375). *)
Definition on_chunk (ch : chunk) (l : locals) : M locals :=
  emit ReadChunk ;;;
  l1 <- match delta_content ch with
        | Some [] | None => ret l
        | Some content =>
            l <- (if first_token_received l then ret l
                  else t <- time_time ;; update_latency_metric LlmFirstToken t ;;;
                       ret (mkLocals (complete_text l) (accumulated_text l) true
                              (first_sentence_received l) (tools l))) ;;
            let l := mkLocals (complete_text l ++ content)
                       (accumulated_text l ++ content) (first_token_received l)
                       (first_sentence_received l) (tools l) in
            send_json (JText content) ;;;
            if ends_with_punct content then
              l <- first_sentence_mark l ;;
              generate_and_send_tts (accumulated_text l) ;;;
              let l := mkLocals (complete_text l) [] (first_token_received l)
                         (first_sentence_received l) (tools l) in
              first_audio_gate ;;;
              ret l
            else ret l
        end ;;
  match delta_tool_calls ch with
  | [] => ret l1
  | tcs => ret (mkLocals (complete_text l1) (accumulated_text l1)
                  (first_token_received l1) (first_sentence_received l1)
                  (tools l1 ++ tcs))
  end.

Fixpoint chunk_loop (cs : list chunk) (l : locals) : M locals :=
  match cs with
  | [] => ret l
  | ch :: rest => l' <- on_chunk ch l ;; chunk_loop rest l'
  end.

(** [func_call["arguments"] += tool.function.arguments] over [tools]
    (lines 380-384); adding [None] to a [str] raises [TypeError]. *)
Fixpoint concat_arguments (ts : list tool_call) (acc : pstr) : M pstr :=
  match ts with
  | [] => ret acc
  | t :: rest =>
      match fn_arguments t with
      | Some a => concat_arguments rest (acc ++ a)
      | None => raise TypeError
      end
  end.

(** [process_and_stream] (lines 288-294), over the generator it awaits. *)
Definition process_and_stream_with (gen : pstr -> M unit) (text : pstr) : M unit :=
  try_finally (gen text)
    (modify_sess (set_is_processing false) ;;;
     modify_sess (set_first_audio_sent false)).

(** The function-call branch (lines 377-406).  When the lookup raises, the
    handler speaks the apology and clears [accumulated_text]; [result] is
    then unbound, and reading it on line 401 raises [UnboundLocalError]. *)
Definition tool_branch (sub_turn : pstr -> M unit) (l : locals) : M locals :=
  match tools l with
  | [] => ret l
  | ts =>
      supabase_query <- concat_arguments ts [] ;;
      generate_and_send_tts PLEASE_WAIT ;;;
      match lookup supabase_query with
      | Some result =>
          process_and_stream_with sub_turn (SUMMARIZE_PREFIX ++ result) ;;;
          ret l
      | None =>
          generate_and_send_tts APOLOGY ;;;
          raise (UnboundLocalError (lit "result"))
      end
  end.

(** [generate_llm_response] (lines 319-438); its [except] clause logs and
    re-raises, which leaves the exception unchanged. *)
Fixpoint generate_llm_response (fuel : nat) (text : pstr) : M unit :=
  match fuel with
  | O => raise RecursionError
  | S f =>
      t <- time_time ;; update_latency_metric LlmStart t ;;;
      se <- get_sess ;;
      let messages := conversation se ++ [mkMessage User text] in
      emit (CallLLM messages) ;;;
      let '(chunks, completes) := llm messages in
      l <- chunk_loop chunks init_locals ;;
      (if completes then ret tt else raise (ServiceError (lit "LLM error"))) ;;;
      l <- tool_branch (generate_llm_response f) l ;;
      (match accumulated_text l with
       | [] => ret tt
       | acc => l <- first_sentence_mark l ;;
                generate_and_send_tts acc ;;;
                first_audio_gate
       end) ;;;
      t <- time_time ;; update_latency_metric TtsEnd t ;;;
      add_ai_message (complete_text l)
  end.

Definition process_and_stream (text : pstr) : M unit :=
  process_and_stream_with (generate_llm_response recursion_limit) text.

(** ** The websocket loop ([websocket_endpoint], lines 182-285) *)

(** The JSON payload of a text frame: a dictionary with its ["type"] and
    ["action"] entries, a JSON value that is not a dictionary, with the
    name of its Python type ([list], [str], [int], [float], [bool] or
    [NoneType]; its [.get] raises [AttributeError]), or text that is not
    JSON. *)
Inductive text_payload :=
| TDict (type_field : option pstr) (action_field : option pstr)
| TNonDict (type_name : pstr)
| TInvalid.

Inductive inbound :=
| MBytes (a : audio)
| MText (p : text_payload)
| MOther.

(** The [try] block of a turn (lines 227-255).  [turn_id] only names the
    temporary audio file. *)
Definition turn_body : M unit :=
  se <- get_sess ;;
  text <- transcribe_audio (audio_buffer se) ;;
  match text with
  | [] => raise (ValueError (lit "Transcription resulted in empty text"))
  | _ =>
      add_user_message text ;;;
      send_json (JTranscription text) ;;;
      process_and_stream text ;;;
      se <- get_sess ;;
      send_json (JLatency (calculate_latencies (latency se)))
  end.

(** [data.get(key) == v] for a string [v]. *)
Definition field_is (f : option pstr) (v : pstr) : bool :=
  match f with
  | Some x => pstr_eqb x v
  | None => false
  end.

(** The [stop_recording] branch (lines 205-268). *)
Definition stop_recording : M unit :=
  reset_latency_metrics ;;;
  se <- get_sess ;;
  if is_processing se then
    modify_sess (set_llm_output_sentences []) ;;;
    modify_sess (set_is_processing false) ;;;
    send_json JInterrupted
  else
    modify_sess (set_is_processing true) ;;;
    try_finally
      (try_except turn_body (fun e => send_json (JError (exn_str e))))
      (modify_sess (set_is_processing false) ;;;
       send_json JProcessingComplete).

(** One iteration of [while True] (lines 190-278). *)
Definition handle_message (m : inbound) : M unit :=
  match m with
  | MBytes a => modify_sess (set_audio_buffer a)
  | MText TInvalid => ret tt
  | MText (TNonDict n) => raise (AttributeError n)
  | MText (TDict ty act) =>
      if field_is ty (lit "ping") then send_json JPong
      else if field_is act (lit "stop_recording") then stop_recording
      else ret tt
  | MOther => ret tt
  end.

Fixpoint serve (ms : list inbound) : M unit :=
  match ms with
  | [] => ret tt
  | m :: rest => handle_message m ;;; serve rest
  end.

(** [create_session] (lines 50-72). *)
Definition create_session : M unit :=
  t <- time_time ;;
  modify_sess (fun _ => mkSession [SYSTEM] [] 0 false [] t false (fresh_metrics 0)).

(** The connection: the messages [ms] arrive, then the client disconnects
    ([WebSocketDisconnect] ends the loop quietly); any other exception
    closes the socket with code 1011. *)
Definition websocket_endpoint (ms : list inbound) : M unit :=
  create_session ;;;
  try_except (serve ms) (fun e => emit (Close (exn_str e))).

End Orchestrator.

(** The state before the connection is accepted. *)
Definition empty_session : session :=
  mkSession [] [] 0 false [] 0 false (fresh_metrics 0).

Definition st0 : St := mkSt empty_session [] 0.

(** ** The session table ([ConversationManager], lines 46-138)

    [self.sessions] maps session ids to sessions; a Python dict keeps its
    keys in insertion order, so it is an association list here.  [None]
    stands for the [KeyError] of a missing key. *)

Definition table := list (pstr * session).

(** [d[k]]. *)
Fixpoint dict_get (k : pstr) (d : table) : option session :=
  match d with
  | [] => None
  | (k', v) :: r => if pstr_eqb k k' then Some v else dict_get k r
  end.

(** [d[k] = v]: an existing key keeps its place, a new one goes last. *)
Fixpoint dict_set (k : pstr) (v : session) (d : table) : table :=
  match d with
  | [] => [(k, v)]
  | (k', v') :: r => if pstr_eqb k k' then (k, v) :: r else (k', v') :: dict_set k v r
  end.

(** [del d[k]]. *)
Fixpoint dict_del (k : pstr) (d : table) : option table :=
  match d with
  | [] => None
  | (k', v') :: r =>
      if pstr_eqb k k' then Some r else option_map (cons (k', v')) (dict_del k r)
  end.

Record manager := mkManager { sessions : table; session_timeout : Q }.

(** [ConversationManager.__init__] (lines 47-49). *)
Definition manager_init : manager := mkManager [] 3600.

(** The session installed by [create_session] (lines 52-71), [now] being
    the [time.time()] reading. *)
Definition new_session (now : Q) : session :=
  mkSession [SYSTEM] [] 0 false [] now false (fresh_metrics 0).

(** [create_session] (lines 50-72); [sid] is the [str(uuid.uuid4())]. *)
Definition manager_create_session (sid : pstr) (now : Q) (m : manager) : pstr * manager :=
  (sid, mkManager (dict_set sid (new_session now) (sessions m)) (session_timeout m)).

(** [current_time - session_data["last_activity"] > self.session_timeout]. *)
Definition is_stale (current_time timeout : Q) (se : session) : bool :=
  negb (Qle_bool (current_time - last_activity se) timeout).

(** [for session_id in sessions_to_remove: del self.sessions[session_id]]. *)
Fixpoint del_all (ks : list pstr) (d : table) : option table :=
  match ks with
  | [] => Some d
  | k :: rest =>
      match dict_del k d with
      | Some d' => del_all rest d'
      | None => None
      end
  end.

(** [clean_old_sessions] (lines 118-127), [current_time] being the
    [time.time()] reading. *)
Definition clean_old_sessions (current_time : Q) (m : manager) : option manager :=
  let sessions_to_remove :=
    map fst (filter (fun kv => is_stale current_time (session_timeout m) (snd kv))
               (sessions m)) in
  option_map (fun d => mkManager d (session_timeout m))
    (del_all sessions_to_remove (sessions m)).

(** [add_to_audio_buffer] (lines 129-130). *)
Definition add_to_audio_buffer (sid : pstr) (audio_data : audio) (m : manager)
    : option manager :=
  match dict_get sid (sessions m) with
  | None => None
  | Some se =>
      Some (mkManager
              (dict_set sid (set_audio_buffer (audio_buffer se ++ audio_data) se)
                 (sessions m))
              (session_timeout m))
  end.

(** [get_and_clear_audio_buffer] (lines 132-135). *)
Definition get_and_clear_audio_buffer (sid : pstr) (m : manager)
    : option (audio * manager) :=
  match dict_get sid (sessions m) with
  | None => None
  | Some se =>
      let audio_data := audio_buffer se in
      Some (audio_data,
            mkManager (dict_set sid (set_audio_buffer [] se) (sessions m))
              (session_timeout m))
  end.

(** ** [process_llm_content] (lines 448-457) *)

Definition is_end_punct (c : N) : bool :=
  N.eqb c c_dot || N.eqb c c_bang || N.eqb c c_qmark.

(** [(?<=[.!?])\s+] at the head of [s]; [prev] is the character before
    it (the lookbehind). *)
Definition m_sentence_gap (prev : option N) (s : pstr) : option nat :=
  match prev with
  | Some p =>
      if is_end_punct p then
        match run_len is_space s with
        | O => None
        | n => Some n
        end
      else None
  | None => None
  end.

(** [re.split] with a pattern that never matches the empty string: the
    text between matches, scanned left to right; [cur] is the piece being
    read and [prev] the character before the scan position. *)
Fixpoint re_split (matcher : option N -> pstr -> option nat) (fuel : nat)
    (prev : option N) (cur : pstr) (s : pstr) : list pstr :=
  match fuel with
  | O => [cur ++ s]
  | S f =>
      match s with
      | [] => [cur]
      | c :: r =>
          match matcher prev s with
          | Some (S k) => cur :: re_split matcher f (nth_error s k) [] (skipn (S k) s)
          | _ => re_split matcher f (Some c) (cur ++ [c]) r
          end
      end
  end.

(** [re.split(r"(?<=[.!?])\s+", content)]. *)
Definition split_sentences (content : pstr) : list pstr :=
  re_split m_sentence_gap (S (List.length content)) None [] content.

(** The loop body of [process_llm_content], over the pieces. *)
Fixpoint store_sentences (clock : nat -> Q) (sentences : list pstr) : M unit :=
  match sentences with
  | [] => ret tt
  | sentence :: rest =>
      match sentence with
      | [] => ret tt
      | _ =>
          let processed_sentence := process_sentence sentence in
          modify_sess (fun se => set_llm_output_sentences
                                   (llm_output_sentences se ++ [processed_sentence]) se) ;;;
          add_ai_message clock processed_sentence
      end ;;;
      store_sentences clock rest
  end.

Definition process_llm_content (clock : nat -> Q) (content : pstr) : M unit :=
  store_sentences clock (split_sentences content).

(** Pieces rejoined with separators between them. *)
Fixpoint join_pieces (ps seps : list pstr) : pstr :=
  match ps, seps with
  | p :: ps', w :: ws => p ++ w ++ join_pieces ps' ws
  | p :: _, [] => p
  | [], _ => []
  end.

Definition non_empty (x : pstr) : bool :=
  match x with [] => false | _ => true end.

(** Observations on a trace. *)
Definition is_json (j : json_out) (e : event) : bool :=
  match e, j with
  | SendJson JPong, JPong | SendJson JFirstAudio, JFirstAudio
  | SendJson JInterrupted, JInterrupted
  | SendJson JProcessingComplete, JProcessingComplete => true
  | _, _ => false
  end.

Definition count_json (j : json_out) (tr : list event) : nat :=
  List.length (filter (is_json j) tr).

Fixpoint tts_texts (tr : list event) : list pstr :=
  match tr with
  | [] => []
  | CallTTS t :: rest => t :: tts_texts rest
  | _ :: rest => tts_texts rest
  end.

Fixpoint llm_calls (tr : list event) : list (list message) :=
  match tr with
  | [] => []
  | CallLLM ms :: rest => ms :: llm_calls rest
  | _ :: rest => llm_calls rest
  end.

(** Inbound messages used below. *)
Definition stop_msg : inbound := MText (TDict None (Some (lit "stop_recording"))).

(** The sentence segmentation of spec sections 4.2-4.3, in the spec's own
    words: fragments accumulate until one ends in [.], [!] or [?]; the
    buffer is then emitted as one sentence and reset; a non-empty buffer
    left at stream end is emitted too.  Nothing is sanitized here. *)
Fixpoint segment (acc : pstr) (frags : list pstr) : list pstr :=
  match frags with
  | [] => match acc with [] => [] | _ => [acc] end
  | f :: rest =>
      if ends_with_punct f then (acc ++ f) :: segment [] rest
      else segment (acc ++ f) rest
  end.

(** The text fragment of a chunk, [None] read as empty. *)
Definition chunk_text (ch : chunk) : pstr :=
  match delta_content ch with Some c => c | None => [] end.

Definition contents (cs : list chunk) : list pstr := map chunk_text cs.

(** Subsequence of a list (characters deleted, order kept). *)
Inductive subseq {A : Type} : list A -> list A -> Prop :=
| subseq_nil : subseq [] []
| subseq_skip x l1 l2 : subseq l1 l2 -> subseq l1 (x :: l2)
| subseq_keep x l1 l2 : subseq l1 l2 -> subseq (x :: l1) (x :: l2).

(** A synthesis call immediately followed by the frame carrying its audio. *)
Inductive awaited (tts : pstr -> option audio) : list event -> Prop :=
| aw_nil : awaited tts []
| aw_tts t a rest :
    tts t = Some a -> awaited tts rest ->
    awaited tts (CallTTS t :: SendBytes a :: rest)
| aw_other e rest :
    (forall t, e <> CallTTS t) -> awaited tts rest -> awaited tts (e :: rest).

(** Events the body of a turn can produce (everything but [pong],
    [interrupted], [processing_complete] and closing the socket). *)
Definition turn_event (e : event) : bool :=
  match e with
  | SendJson JPong | SendJson JInterrupted | SendJson JProcessingComplete
  | Close _ => false
  | _ => true
  end.

(** ** Trace-extension properties of monadic code *)

Definition closedP (P : list event -> Prop) : Prop :=
  P [] /\ forall a b, P a -> P b -> P (a ++ b).

(** Every run of [m] appends to the trace a segment satisfying [P]. *)
Definition keeps {A} (P : list event -> Prop) (m : M A) : Prop :=
  forall s, exists ext, trace (snd (m s)) = trace s ++ ext /\ P ext.

(** Every successful run of [m] does. *)
Definition keeps_ok {A} (P : list event -> Prop) (m : M A) : Prop :=
  forall s a s', m s = (Ok a, s') -> exists ext, trace s' = trace s ++ ext /\ P ext.

(** ** History growth *)

(** The history of [se'] is that of [se] followed by user and assistant
    messages, and [current_turn] has advanced by their number. *)
Definition hist_ext (se se' : session) : Prop :=
  exists ext, conversation se' = conversation se ++ ext /\
    Forall (fun m => role_of m <> System) ext /\
    current_turn se' = current_turn se + List.length ext.

(** Every run of [m], successful or not, extends the history so. *)
Definition grows {A} (m : M A) : Prop :=
  forall s, hist_ext (sess s) (sess (snd (m s))).

(** Number of [processing_complete] messages in a trace. *)
Definition completions (tr : list event) : nat := count_json JProcessingComplete tr.

(** Number of stream chunks read in a trace. *)
Definition reads (tr : list event) : nat :=
  List.length (filter (fun e => match e with ReadChunk => true | _ => false end) tr).

(** Characters other than [~]. *)
Definition not_tilde (c : N) : Prop := c <> c_tilde.

(** Trace segments without an [interrupted] message. *)
Definition no_interrupt (ext : list event) : Prop := count_json JInterrupted ext = 0.

(** ** Concrete collaborators for the scenarios *)

(** [time.time()] returns the tick count. *)
Definition clock_ticks (n : nat) : Q := inject_Z (Z.of_nat n).

Definition stt_hi (a : audio) : option pstr := Some (lit "hi").
Definition stt_silent (a : audio) : option pstr := Some [].

(** A synthesis service answering with the text's code points as audio. *)
Definition tts_echo (t : pstr) : option audio := Some t.

Definition frag (s : string) : chunk := mkChunk (Some (lit s)) [].

(** The fragment stream of the spec's segmentation example. *)
Definition llm_hello (ms : list message) : list chunk * bool :=
  (map frag ["Hello"; " there"; "."; " How"; " are"; " you"; "?"]%string, true).

(** One sentence the sanitizer would change. *)
Definition llm_paren (ms : list message) : list chunk * bool :=
  ([frag "(hi)."], true).

Definition lookup_call : chunk :=
  mkChunk None [mkToolCall (Some (lit "get_patient_info")) (Some (lit "q"))].

(** A model that asks for a lookup when the last message is the user's
    ["hi"], and answers ["Done."] to the summarising sub-turn. *)
Definition llm_lookup (ms : list message) : list chunk * bool :=
  match rev ms with
  | m :: _ =>
      if pstr_eqb (content_of m) (lit "hi")
      then ([frag "Checking"; lookup_call], true)
      else ([frag "Done."], true)
  | [] => ([], true)
  end.

Definition lookup_row (q : pstr) : option pstr := Some (lit "row").
Definition lookup_fail (q : pstr) : option pstr := None.

(** A connection that records some audio and then stops recording. *)
Definition one_turn : list inbound := [MBytes [1%N]; stop_msg].

Definition run_endpoint llm lookup (ms : list inbound) : St :=
  snd (websocket_endpoint stt_hi llm tts_echo lookup clock_ticks ms st0).

(** The state in which the body of a turn starts (lines 209 and 220). *)
Definition turn_start (clock : nat -> Q) (s : St) : St :=
  mkSt (set_is_processing true (set_latency (fresh_metrics (clock (ticks s))) (sess s)))
    (trace s) (S (ticks s)).

(** The texts a trace segment hands to synthesis are raw sentences: each
    is the fixed wait prompt or a sentence of the segmentation of the
    fragments of a stream requested in the segment, and all the sentences
    of every stream requested are handed over, in their order. *)
Definition raw_tts (llm : list message -> list chunk * bool) (ext : list event) : Prop :=
  (forall t, In t (tts_texts ext) ->
     t = PLEASE_WAIT \/
     exists ms, In ms (llm_calls ext) /\ In t (segment [] (contents (fst (llm ms))))) /\
  (forall ms, In ms (llm_calls ext) ->
     subseq (segment [] (contents (fst (llm ms)))) (tts_texts ext)).

(* ================================================================== *)
(** * Properties *)

Example process_sentence_ex1 :
  process_sentence (lit " Hi~~ (aside) *wink* there ") = lit "Hi!   there".
Proof. vm_compute. reflexivity. Qed.

Example process_sentence_ex2 :
  process_sentence (lit "**a*b*") = lit "*b*".
Proof. vm_compute. reflexivity. Qed.

(** ** The sanitizer *)

Section Subseq.

Context {A : Type}.

Lemma subseq_nil_l (l : list A) : subseq [] l.
Proof. induction l; [constructor | apply subseq_skip; assumption]. Qed.

Lemma subseq_refl (l : list A) : subseq l l.
Proof. induction l; [constructor | apply subseq_keep; assumption]. Qed.

Lemma subseq_trans (a b c : list A) : subseq a b -> subseq b c -> subseq a c.
Proof.
  intros Hab Hbc. revert a Hab.
  induction Hbc as [|x l1 l2 H IH|x l1 l2 H IH]; intros a Hab.
  - exact Hab.
  - apply subseq_skip. apply IH. exact Hab.
  - inversion Hab; subst.
    + apply subseq_skip. apply IH. assumption.
    + apply subseq_keep. apply IH. assumption.
Qed.

Lemma subseq_app (a b c d : list A) :
  subseq a b -> subseq c d -> subseq (a ++ c) (b ++ d).
Proof.
  intros Hab Hcd. induction Hab; simpl;
    [exact Hcd | apply subseq_skip; auto | apply subseq_keep; auto].
Qed.

Lemma subseq_rev (a b : list A) : subseq a b -> subseq (rev a) (rev b).
Proof.
  induction 1; simpl.
  - constructor.
  - rewrite <- (app_nil_r (rev l1)). apply subseq_app; [assumption | apply subseq_nil_l].
  - apply subseq_app; [assumption | apply subseq_refl].
Qed.

Lemma subseq_skipn n (l : list A) : subseq (skipn n l) l.
Proof.
  revert l. induction n as [|n IH]; intro l; simpl; [apply subseq_refl|].
  destruct l; [constructor | apply subseq_skip; apply IH].
Qed.

Lemma subseq_Forall (P : A -> Prop) (a b : list A) :
  subseq a b -> Forall P b -> Forall P a.
Proof.
  induction 1; intro HF; [constructor | inversion HF; auto | inversion HF; constructor; auto].
Qed.

End Subseq.

Lemma re_sub_delete m f : forall s, subseq (re_sub m [] f s) s.
Proof.
  induction f as [|f IH]; intro s; simpl; [apply subseq_refl|].
  destruct s as [|c r]; [constructor|].
  destruct (m (c :: r)) as [[|k]|].
  - apply subseq_keep. apply IH.
  - simpl. apply (subseq_trans _ (skipn (S k) (c :: r))); [apply IH | apply subseq_skipn].
  - apply subseq_keep. apply IH.
Qed.

Lemma sub_delete m s : subseq (sub m [] s) s.
Proof. apply re_sub_delete. Qed.

Lemma lstrip_subseq s : subseq (lstrip s) s.
Proof.
  induction s as [|c r IH]; simpl; [constructor|].
  destruct (is_space c); [apply subseq_skip; exact IH | apply subseq_refl].
Qed.

Lemma strip_subseq s : subseq (strip s) s.
Proof.
  unfold strip. rewrite <- (rev_involutive s) at 2. apply subseq_rev.
  apply (subseq_trans _ (rev (lstrip s))).
  - apply lstrip_subseq.
  - apply subseq_rev, lstrip_subseq.
Qed.

Lemma m_tildes_head c r : c <> c_tilde -> m_tildes (c :: r) = None.
Proof.
  intro H. unfold m_tildes. cbn [run_len].
  destruct (N.eqb_spec c_tilde c); [congruence | reflexivity].
Qed.

Lemma m_tildes_tilde c r : m_tildes (c :: r) = None \/ m_tildes (c :: r) = Some O ->
  c <> c_tilde.
Proof.
  unfold m_tildes. cbn [run_len]. destruct (N.eqb_spec c_tilde c); [|congruence].
  intros [H|H]; discriminate.
Qed.

Lemma re_sub_tildes_id f : forall s, Forall not_tilde s ->
  re_sub m_tildes [c_bang] f s = s.
Proof.
  induction f as [|f IH]; intros s H; simpl; [reflexivity|].
  destruct s as [|c r]; [reflexivity|].
  inversion H; subst. rewrite m_tildes_head by assumption. f_equal. apply IH. assumption.
Qed.

Lemma re_sub_tildes_out f : forall s, List.length s < f ->
  Forall not_tilde (re_sub m_tildes [c_bang] f s).
Proof.
  induction f as [|f IH]; intros s Hl; simpl; [inversion Hl|].
  destruct s as [|c r]; [constructor|].
  destruct (m_tildes (c :: r)) as [[|k]|] eqn:Em.
  - constructor; [apply (m_tildes_tilde c r); right; exact Em|].
    apply IH. simpl in Hl. lia.
  - simpl. constructor; [unfold not_tilde, c_bang, c_tilde; discriminate|].
    apply IH. rewrite length_skipn. simpl in *. lia.
  - constructor; [apply (m_tildes_tilde c r); left; exact Em|].
    apply IH. simpl in Hl. lia.
Qed.

Lemma process_sentence_no_tilde x : Forall not_tilde (process_sentence x).
Proof.
  unfold process_sentence.
  eapply subseq_Forall; [apply strip_subseq|].
  eapply subseq_Forall; [apply sub_delete|].
  eapply subseq_Forall; [apply sub_delete|].
  eapply subseq_Forall; [apply sub_delete|].
  apply re_sub_tildes_out. lia.
Qed.

Section Keeps.

Variable P : list event -> Prop.
Hypothesis HP : closedP P.

Lemma keeps_nil {A} (m : M A) : (forall s, trace (snd (m s)) = trace s) -> keeps P m.
Proof.
  intros H s. exists []. rewrite H, app_nil_r. split; [reflexivity | apply HP].
Qed.

Lemma keeps_ret {A} (a : A) : keeps P (ret a).
Proof. apply keeps_nil. reflexivity. Qed.

Lemma keeps_raise {A} (e : exn) : keeps P (@raise A e).
Proof. apply keeps_nil. reflexivity. Qed.

Lemma keeps_get_sess : keeps P get_sess.
Proof. apply keeps_nil. reflexivity. Qed.

Lemma keeps_modify_sess f : keeps P (modify_sess f).
Proof. apply keeps_nil. reflexivity. Qed.

Lemma keeps_time_time clock : keeps P (time_time clock).
Proof. apply keeps_nil. reflexivity. Qed.

Lemma keeps_emit e : P [e] -> keeps P (emit e).
Proof. intros He s. exists [e]. split; [reflexivity | exact He]. Qed.

Lemma keeps_bind {A B} (m : M A) (k : A -> M B) :
  keeps P m -> (forall a, keeps P (k a)) -> keeps P (bind m k).
Proof.
  intros Hm Hk s. unfold bind.
  destruct (Hm s) as [e1 [E1 P1]].
  destruct (m s) as [[a|e] s']; simpl in *.
  - destruct (Hk a s') as [e2 [E2 P2]].
    exists (e1 ++ e2). rewrite E2, E1, app_assoc.
    split; [reflexivity | apply HP; assumption].
  - exists e1. split; assumption.
Qed.

Lemma keeps_try_except {A} (m : M A) (h : exn -> M A) :
  keeps P m -> (forall e, keeps P (h e)) -> keeps P (try_except m h).
Proof.
  intros Hm Hh s. unfold try_except.
  destruct (Hm s) as [e1 [E1 P1]].
  destruct (m s) as [[a|e] s']; simpl in *.
  - exists e1. split; assumption.
  - destruct (Hh e s') as [e2 [E2 P2]].
    exists (e1 ++ e2). rewrite E2, E1, app_assoc.
    split; [reflexivity | apply HP; assumption].
Qed.

Lemma snd_try_finally {A} (m : M A) (f : M unit) s :
  snd (try_finally m f s) = snd (f (snd (m s))).
Proof.
  unfold try_finally. destruct (m s) as [r s']. simpl.
  destruct (f s') as [[u|e] s'']; reflexivity.
Qed.

Lemma keeps_try_finally {A} (m : M A) (f : M unit) :
  keeps P m -> keeps P f -> keeps P (try_finally m f).
Proof.
  intros Hm Hf s. rewrite snd_try_finally.
  destruct (Hm s) as [e1 [E1 P1]].
  destruct (Hf (snd (m s))) as [e2 [E2 P2]].
  exists (e1 ++ e2). rewrite E2, E1, app_assoc.
  split; [reflexivity | apply HP; assumption].
Qed.

Lemma keeps_ok_of_keeps {A} (m : M A) : keeps P m -> keeps_ok P m.
Proof.
  intros Hm s a s' E. destruct (Hm s) as [ext [E1 P1]].
  rewrite E in E1. exists ext. split; assumption.
Qed.

Lemma keeps_ok_bind {A B} (m : M A) (k : A -> M B) :
  keeps_ok P m -> (forall a, keeps_ok P (k a)) -> keeps_ok P (bind m k).
Proof.
  intros Hm Hk s b s'' E. unfold bind in E.
  destruct (m s) as [[a|e] s'] eqn:Em; [|discriminate].
  destruct (Hm s a s' Em) as [e1 [E1 P1]].
  destruct (Hk a s' b s'' E) as [e2 [E2 P2]].
  exists (e1 ++ e2). rewrite E2, E1, app_assoc.
  split; [reflexivity | apply HP; assumption].
Qed.

Lemma keeps_ok_try_finally {A} (m : M A) (f : M unit) :
  keeps_ok P m -> keeps_ok P f -> keeps_ok P (try_finally m f).
Proof.
  intros Hm Hf s b s'' E. unfold try_finally in E.
  destruct (m s) as [r s'] eqn:Em.
  destruct (f s') as [[u|e] s1] eqn:Ef; [|discriminate].
  injection E as -> ->.
  destruct (Hm s b s' Em) as [e1 [E1 P1]].
  destruct (Hf s' u s'' Ef) as [e2 [E2 P2]].
  exists (e1 ++ e2). rewrite E2, E1, app_assoc.
  split; [reflexivity | apply HP; assumption].
Qed.

End Keeps.

Section Properties.

Variable stt : audio -> option pstr.
Variable llm : list message -> list chunk * bool.
Variable tts : pstr -> option audio.
Variable lookup : pstr -> option pstr.
Variable clock : nat -> Q.

Local Abbreviation generate := (generate_llm_response llm tts lookup clock).
Local Abbreviation handle := (handle_message stt llm tts lookup clock).

Section TurnKeeps.

Variable P : list event -> Prop.
Hypothesis HP : closedP P.
Hypothesis Hev : forall e, turn_event e = true -> P [e].

Ltac kstep :=
  match goal with
  | |- keeps _ (bind _ _) => apply (keeps_bind P HP); [| intros ?]
  | |- keeps _ (ret _) => apply (keeps_ret P HP)
  | |- keeps _ (raise _) => apply (keeps_raise P HP)
  | |- keeps _ get_sess => apply (keeps_get_sess P HP)
  | |- keeps _ (modify_sess _) => apply (keeps_modify_sess P HP)
  | |- keeps _ (time_time _) => apply (keeps_time_time P HP)
  | |- keeps _ (emit _) => apply (keeps_emit P); apply Hev; reflexivity
  | |- keeps _ (send_json _) => apply (keeps_emit P); apply Hev; reflexivity
  | |- keeps _ (try_finally _ _) => apply (keeps_try_finally P HP)
  | |- keeps _ (try_except _ _) => apply (keeps_try_except P HP); [| intros ?]
  | |- keeps _ (if ?b then _ else _) => destruct b
  | |- keeps _ (match ?x with _ => _ end) => destruct x
  end.

Lemma keeps_update_latency_metric k v : keeps P (update_latency_metric k v).
Proof. unfold update_latency_metric. repeat kstep. Qed.

Lemma keeps_add_message text :
  keeps P (add_user_message clock text) /\ keeps P (add_ai_message clock text).
Proof. unfold add_user_message, add_ai_message. split; repeat kstep. Qed.

Lemma keeps_generate_and_send_tts text : keeps P (generate_and_send_tts tts text).
Proof. unfold generate_and_send_tts. repeat kstep. Qed.

Lemma keeps_first_audio_gate : keeps P (first_audio_gate clock).
Proof.
  unfold first_audio_gate. repeat (kstep || apply keeps_update_latency_metric).
Qed.

Lemma keeps_first_sentence_mark l : keeps P (first_sentence_mark clock l).
Proof.
  unfold first_sentence_mark. repeat (kstep || apply keeps_update_latency_metric).
Qed.

Ltac kall :=
  repeat (kstep || apply keeps_update_latency_metric
          || apply keeps_generate_and_send_tts || apply keeps_first_audio_gate
          || apply keeps_first_sentence_mark
          || apply (proj1 (keeps_add_message _))
          || apply (proj2 (keeps_add_message _))).

Lemma keeps_on_chunk ch l : keeps P (on_chunk tts clock ch l).
Proof. unfold on_chunk. kall. Qed.

Lemma keeps_chunk_loop cs : forall l, keeps P (chunk_loop tts clock cs l).
Proof.
  induction cs as [|ch cs IH]; intro l; simpl.
  - kall.
  - apply (keeps_bind P HP); [apply keeps_on_chunk | intro; apply IH].
Qed.

Lemma keeps_concat_arguments ts : forall acc, keeps P (concat_arguments ts acc).
Proof.
  induction ts as [|t ts IH]; intro acc; simpl; [kall|].
  destruct (fn_arguments t); [apply IH | kall].
Qed.

Lemma keeps_process_and_stream_with gen text :
  (forall x, keeps P (gen x)) -> keeps P (process_and_stream_with gen text).
Proof. intro Hg. unfold process_and_stream_with. kall. apply Hg. Qed.

Lemma keeps_tool_branch sub_turn l :
  (forall x, keeps P (sub_turn x)) -> keeps P (tool_branch tts lookup sub_turn l).
Proof.
  intro Hs. unfold tool_branch. destruct (tools l) as [|t ts].
  - kall.
  - apply (keeps_bind P HP); [apply keeps_concat_arguments | intro q].
    kall. apply keeps_process_and_stream_with. exact Hs.
Qed.

Lemma keeps_generate fuel : forall text, keeps P (generate fuel text).
Proof.
  induction fuel as [|f IH]; intro text; simpl; [kall|].
  repeat (kall || apply keeps_chunk_loop || (apply keeps_tool_branch; exact IH)).
Qed.

Lemma keeps_process_and_stream text : keeps P (process_and_stream llm tts lookup clock text).
Proof. apply keeps_process_and_stream_with. apply keeps_generate. Qed.

Lemma keeps_transcribe_audio a : keeps P (transcribe_audio stt clock a).
Proof. unfold transcribe_audio. kall. Qed.

Lemma keeps_turn_body : keeps P (turn_body stt llm tts lookup clock).
Proof.
  unfold turn_body.
  repeat (kall || apply keeps_transcribe_audio || apply keeps_process_and_stream).
Qed.

Lemma bind_ok {A B} (m : M A) (k : A -> M B) s a s' :
  m s = (Ok a, s') -> bind m k s = k a s'.
Proof. intro E. unfold bind. rewrite E. reflexivity. Qed.

(** A call of [generate_llm_response] starts by requesting a completion
    for the stored conversation followed by the new user message. *)
Lemma generate_prefix f text s :
  exists ext,
    trace (snd (generate (S f) text s))
      = trace s ++ CallLLM (conversation (sess s) ++ [mkMessage User text]) :: ext
    /\ P ext.
Proof.
  cbn [generate_llm_response].
  do 4 (erewrite bind_ok; [|reflexivity]).
  match goal with
  | |- exists ext, trace (snd (?R ?x)) = _ /\ _ =>
      assert (K : keeps P R) by
        repeat (kall || apply keeps_chunk_loop
                || (apply keeps_tool_branch; apply keeps_generate));
      destruct (K x) as [ext [E Pe]]
  end.
  exists ext. rewrite E. simpl. rewrite <- app_assoc. split; [reflexivity | exact Pe].
Qed.

End TurnKeeps.


Lemma no_interrupt_closed : closedP no_interrupt.
Proof.
  unfold no_interrupt, count_json. split; [reflexivity|].
  intros a b Ha Hb. rewrite filter_app, length_app, Ha, Hb. reflexivity.
Qed.

Lemma no_interrupt_turn_event e : turn_event e = true -> no_interrupt [e].
Proof.
  unfold no_interrupt, count_json.
  destruct e as [j| | | | | |]; try destruct j; simpl; congruence.
Qed.

(** A message received while no turn is processing leaves no turn
    processing, and sends no [interrupted] message. *)
Lemma handle_message_idle m s :
  is_processing (sess s) = false ->
  is_processing (sess (snd (handle m s))) = false /\
  exists ext, trace (snd (handle m s)) = trace s ++ ext /\ no_interrupt ext.
Proof.
  intro H.
  pose proof (keeps_turn_body no_interrupt no_interrupt_closed no_interrupt_turn_event) as Ktb.
  unfold handle_message, stop_recording.
  set (tb := turn_body stt llm tts lookup clock) in *. clearbody tb.
  cbv [bind reset_latency_metrics time_time modify_sess get_sess ret send_json emit].
  destruct m as [a|[ty act| |]|]; simpl.
  - split; [exact H|]. exists []. rewrite app_nil_r. split; reflexivity.
  - destruct (field_is ty (lit "ping")); simpl.
    + split; [exact H|]. exists [SendJson JPong]. split; reflexivity.
    + destruct (field_is act (lit "stop_recording")); simpl.
      * rewrite H. simpl.
        destruct (Ktb (mkSt (set_is_processing true
                   (set_latency (fresh_metrics (clock (ticks s))) (sess s)))
                   (trace s) (S (ticks s)))) as [e1 [E1 N1]].
        unfold try_finally, try_except.
        destruct (tb _) as [[u|e] s3]; simpl in *.
        -- split; [reflexivity|]. exists (e1 ++ [SendJson JProcessingComplete]).
           rewrite E1, app_assoc. split; [reflexivity|].
           apply no_interrupt_closed; [exact N1 | reflexivity].
        -- split; [reflexivity|].
           exists (e1 ++ [SendJson (JError (exn_str e)); SendJson JProcessingComplete]).
           rewrite E1, <- !app_assoc. split; [reflexivity|].
           apply no_interrupt_closed; [exact N1 | reflexivity].
      * split; [exact H|]. exists []. rewrite app_nil_r. split; reflexivity.
  - split; [exact H|]. exists []. rewrite app_nil_r. split; reflexivity.
  - split; [exact H|]. exists []. rewrite app_nil_r. split; reflexivity.
  - split; [exact H|]. exists []. rewrite app_nil_r. split; reflexivity.
Qed.

Lemma serve_idle ms : forall s,
  is_processing (sess s) = false ->
  exists ext, trace (snd (serve stt llm tts lookup clock ms s)) = trace s ++ ext
              /\ no_interrupt ext.
Proof.
  induction ms as [|m ms IH]; intros s H; simpl.
  - exists []. rewrite app_nil_r. split; reflexivity.
  - unfold bind.
    destruct (handle_message_idle m s H) as [H' [e1 [E1 N1]]].
    destruct (handle m s) as [[u|e] s1] eqn:E; simpl in *.
    + destruct (IH s1 H') as [e2 [E2 N2]]. exists (e1 ++ e2).
      rewrite E2, E1, app_assoc. split; [reflexivity|].
      apply no_interrupt_closed; assumption.
    + exists e1. split; assumption.
Qed.

Lemma true_closed : closedP (fun _ => True).
Proof. split; auto. Qed.

Lemma process_and_stream_prefix text s :
  exists ext,
    trace (snd (process_and_stream llm tts lookup clock text s))
      = trace s ++ CallLLM (conversation (sess s) ++ [mkMessage User text]) :: ext.
Proof.
  unfold process_and_stream, process_and_stream_with.
  rewrite snd_try_finally. change recursion_limit with (S 99).
  destruct (generate_prefix (fun _ => True) true_closed (fun _ _ => I) 99 text s)
    as [ext [E _]].
  exists ext. exact E.
Qed.

(** [stop_recording] on an idle session, up to the transcription: the
    state in which [turn_body] continues after [transcribe_audio]. *)
Lemma stop_msg_unfold s :
  handle stop_msg s = stop_recording stt llm tts lookup clock s.
Proof. reflexivity. Qed.

(** C10: a turn started by [stop_recording] on an idle session whose
    transcription [t] is non-empty sends [t] to the completion service
    twice: the request is the stored history, which already ends with the
    user entry [t] appended by [add_user_message], followed by one more
    user message [t]. *)
Theorem turn_request_repeats_user_text s t :
  is_processing (sess s) = false ->
  stt (audio_buffer (sess s)) = Some t -> t <> [] ->
  exists ext,
    trace (snd (handle stop_msg s)) =
      trace s ++ [CallSTT (audio_buffer (sess s)); SendJson (JTranscription t);
                  CallLLM (conversation (sess s) ++ [mkMessage User t; mkMessage User t])]
              ++ ext.
Proof.
  intros H1 H2 H3. rewrite stop_msg_unfold.
  pose proof process_and_stream_prefix as Hpas.
  unfold stop_recording, turn_body.
  set (pas := process_and_stream llm tts lookup clock) in *. clearbody pas.
  cbv [bind reset_latency_metrics time_time modify_sess get_sess ret send_json emit
       transcribe_audio update_latency_metric add_user_message try_finally try_except].
  simpl. rewrite H1. simpl. rewrite H2.
  destruct t as [|c t]; [congruence|].
  match goal with
  | |- context [pas (c :: t) ?st] =>
      destruct (Hpas (c :: t) st) as [ext E];
      destruct (pas (c :: t) st) as [[u|e] s6]
  end;
  simpl in *; eexists; rewrite E; simpl; rewrite <- !app_assoc; simpl; reflexivity.
Qed.

(** C8: when transcription returns empty text, the turn fails before any
    completion request: the only events are the transcription call, an
    [error] message carrying the reason, and [processing_complete]; the
    history is unchanged and [is_processing] is cleared. *)
Theorem empty_transcription_fails s :
  is_processing (sess s) = false ->
  stt (audio_buffer (sess s)) = Some [] ->
  fst (handle stop_msg s) = Ok tt /\
  trace (snd (handle stop_msg s)) =
    trace s ++ [CallSTT (audio_buffer (sess s));
                SendJson (JError (lit "Transcription resulted in empty text"));
                SendJson JProcessingComplete] /\
  conversation (sess (snd (handle stop_msg s))) = conversation (sess s) /\
  is_processing (sess (snd (handle stop_msg s))) = false.
Proof.
  intros H1 H2. rewrite stop_msg_unfold.
  unfold stop_recording, turn_body.
  set (pas := process_and_stream llm tts lookup clock). clearbody pas.
  cbv [bind reset_latency_metrics time_time modify_sess get_sess ret send_json emit
       raise transcribe_audio update_latency_metric try_finally try_except].
  simpl. rewrite H1. simpl. rewrite H2. simpl.
  rewrite <- !app_assoc. repeat split; reflexivity.
Qed.

(** C1: the receive loop awaits each turn before reading the next
    message, and every turn clears [is_processing] in its [finally]
    clause; so [is_processing] is false whenever a message is handled, the
    interrupt branch of [stop_recording] is never taken, and no
    [interrupted] message is ever sent, whatever the messages and the
    services' replies. *)
Theorem websocket_endpoint_never_interrupts ms :
  count_json JInterrupted
    (trace (snd (websocket_endpoint stt llm tts lookup clock ms st0))) = 0.
Proof.
  unfold websocket_endpoint, create_session.
  cbv [bind time_time modify_sess try_except emit].
  simpl.
  destruct (serve_idle ms
              (mkSt (mkSession [SYSTEM] [] 0 false [] (clock 0) false (fresh_metrics 0))
                    [] 1) eq_refl) as [ext [E N]].
  destruct (serve stt llm tts lookup clock ms _) as [[u|e] s1]; simpl in *;
    rewrite E; simpl.
  - exact N.
  - unfold count_json. rewrite filter_app, length_app. unfold no_interrupt, count_json in N.
    rewrite N. reflexivity.
Qed.

Section Awaited.

Lemma awaited_app a b : awaited tts a -> awaited tts b -> awaited tts (a ++ b).
Proof.
  induction 1 as [|t au rest Ht _ IH|e rest He _ IH]; intro Hb; simpl.
  - exact Hb.
  - apply aw_tts; [exact Ht | exact (IH Hb)].
  - apply aw_other; [exact He | exact (IH Hb)].
Qed.

Lemma awaited_closed : closedP (awaited tts).
Proof. split; [apply aw_nil | exact awaited_app]. Qed.

Lemma awaited_single e : (forall t, e <> CallTTS t) -> awaited tts [e].
Proof. intro He. apply aw_other; [exact He | apply aw_nil]. Qed.

Lemma ok_generate_and_send_tts text :
  keeps_ok (awaited tts) (generate_and_send_tts tts text).
Proof.
  intros s u s' E. unfold generate_and_send_tts, bind, emit in E. simpl in E.
  destruct (tts text) as [a|] eqn:Ht; [|discriminate].
  injection E as _ <-. exists [CallTTS text; SendBytes a]. simpl.
  rewrite <- app_assoc. split; [reflexivity|].
  apply aw_tts; [exact Ht | apply aw_nil].
Qed.

Ltac okstep :=
  match goal with
  | |- keeps_ok _ (bind _ _) =>
      apply (keeps_ok_bind _ awaited_closed); [| intros ?]
  | |- keeps_ok _ (try_finally _ _) =>
      apply (keeps_ok_try_finally _ awaited_closed)
  | |- keeps_ok _ (generate_and_send_tts _ _) => apply ok_generate_and_send_tts
  | |- keeps_ok _ (ret _) => apply keeps_ok_of_keeps, (keeps_ret _ awaited_closed)
  | |- keeps_ok _ (raise _) => apply keeps_ok_of_keeps, (keeps_raise _ awaited_closed)
  | |- keeps_ok _ get_sess => apply keeps_ok_of_keeps, (keeps_get_sess _ awaited_closed)
  | |- keeps_ok _ (modify_sess _) =>
      apply keeps_ok_of_keeps, (keeps_modify_sess _ awaited_closed)
  | |- keeps_ok _ (time_time _) =>
      apply keeps_ok_of_keeps, (keeps_time_time _ awaited_closed)
  | |- keeps_ok _ (emit _) =>
      apply keeps_ok_of_keeps, keeps_emit, awaited_single; intros ? ?; discriminate
  | |- keeps_ok _ (send_json _) =>
      apply keeps_ok_of_keeps, keeps_emit, awaited_single; intros ? ?; discriminate
  | |- keeps_ok _ (update_latency_metric _ _) => unfold update_latency_metric
  | |- keeps_ok _ (first_audio_gate _) => unfold first_audio_gate
  | |- keeps_ok _ (first_sentence_mark _ _) => unfold first_sentence_mark
  | |- keeps_ok _ (add_ai_message _ _) => unfold add_ai_message
  | |- keeps_ok _ (on_chunk _ _ _ _) => unfold on_chunk
  | |- keeps_ok _ (if ?b then _ else _) => destruct b
  | |- keeps_ok _ (match ?x with _ => _ end) => destruct x
  end.

Lemma ok_chunk_loop cs : forall l, keeps_ok (awaited tts) (chunk_loop tts clock cs l).
Proof. induction cs as [|ch cs IH]; intro l; simpl; repeat (okstep || apply IH). Qed.

Lemma ok_concat_arguments ts : forall acc, keeps_ok (awaited tts) (concat_arguments ts acc).
Proof. induction ts as [|t ts IH]; intro acc; simpl; repeat (okstep || apply IH). Qed.

Lemma ok_generate fuel : forall text, keeps_ok (awaited tts) (generate fuel text).
Proof.
  induction fuel as [|f IH]; intro text; simpl; [repeat okstep|].
  repeat (okstep || apply ok_chunk_loop || apply ok_concat_arguments || apply IH
          || unfold tool_branch || unfold process_and_stream_with).
Qed.

End Awaited.

Section Segments.

Lemma tts_texts_app a b : tts_texts (a ++ b) = tts_texts a ++ tts_texts b.
Proof.
  induction a as [|e a IH]; simpl; [reflexivity|].
  destruct e; rewrite ?IH; reflexivity.
Qed.

Lemma segment_cons acc f rest :
  segment acc (f :: rest) =
  if ends_with_punct f then (acc ++ f) :: segment [] rest else segment (acc ++ f) rest.
Proof. reflexivity. Qed.

Lemma on_chunk_segment ch l s l' s' rest :
  delta_tool_calls ch = [] ->
  on_chunk tts clock ch l s = (Ok l', s') ->
  exists ext, trace s' = trace s ++ ext /\
    tts_texts ext ++ segment (accumulated_text l') rest
      = segment (accumulated_text l) (chunk_text ch :: rest) /\
    tools l' = tools l.
Proof.
  intros Ht E. unfold chunk_text.
  unfold on_chunk in E. rewrite Ht in E.
  cbv [bind emit send_json ret get_sess modify_sess time_time update_latency_metric
       first_sentence_mark first_audio_gate generate_and_send_tts raise] in E.
  destruct (delta_content ch) as [[|c0 cr]|]; simpl in E.
  - injection E as <- <-. exists [ReadChunk].
    split; [reflexivity|]. rewrite segment_cons, app_nil_r. split; reflexivity.
  - destruct (first_token_received l); simpl in E;
    destruct (ends_with_punct (c0 :: cr)) eqn:Hp; simpl in E;
    try (destruct (first_sentence_received l); simpl in E);
    try (destruct (tts _) eqn:Htts; simpl in E; [|discriminate]);
    try (destruct (first_audio_sent _); simpl in E);
    injection E as <- <-; eexists;
    (split; [simpl; rewrite <- !app_assoc; reflexivity|]);
    rewrite segment_cons, Hp; cbn [tts_texts app accumulated_text tools];
    split; reflexivity.
  - injection E as <- <-. exists [ReadChunk].
    split; [reflexivity|]. rewrite segment_cons, app_nil_r. split; reflexivity.
Qed.

Lemma chunk_loop_segment cs : forall l s l' s',
  (forall ch, In ch cs -> delta_tool_calls ch = []) ->
  chunk_loop tts clock cs l s = (Ok l', s') ->
  exists ext, trace s' = trace s ++ ext /\
    tts_texts ext ++ segment (accumulated_text l') []
      = segment (accumulated_text l) (contents cs) /\
    tools l' = tools l.
Proof.
  induction cs as [|ch cs IH]; intros l s l' s' Hno E; simpl in E.
  - injection E as <- <-. exists []. rewrite app_nil_r. split; [reflexivity|].
    split; reflexivity.
  - unfold bind in E.
    destruct (on_chunk tts clock ch l s) as [[l1|e] s1] eqn:E1; [|discriminate].
    destruct (on_chunk_segment ch l s l1 s1 (contents cs)
                (Hno ch (or_introl eq_refl)) E1) as [e1 [T1 [S1 K1]]].
    destruct (IH l1 s1 l' s' (fun c H => Hno c (or_intror H)) E) as [e2 [T2 [S2 K2]]].
    exists (e1 ++ e2). rewrite T2, T1, app_assoc. split; [reflexivity|].
    split; [|congruence].
    rewrite tts_texts_app, <- app_assoc, S2. exact S1.
Qed.

Lemma generate_tts_segments f text s u s' :
  (forall ch, In ch (fst (llm (conversation (sess s) ++ [mkMessage User text]))) ->
              delta_tool_calls ch = []) ->
  generate (S f) text s = (Ok u, s') ->
  exists ext, trace s' = trace s ++ ext /\
    tts_texts ext
      = segment [] (contents (fst (llm (conversation (sess s) ++ [mkMessage User text])))).
Proof.
  intros Hno E. cbn [generate_llm_response] in E.
  do 4 (erewrite bind_ok in E; [|reflexivity]).
  simpl in E.
  destruct (llm (conversation (sess s) ++ [mkMessage User text])) as [chunks completes].
  simpl in Hno.
  unfold bind at 1 in E.
  match type of E with
  | context [chunk_loop tts clock chunks init_locals ?st] =>
      destruct (chunk_loop tts clock chunks init_locals st) as [[l|e] s5] eqn:Ec;
      [|discriminate];
      destruct (chunk_loop_segment chunks init_locals st l s5 Hno Ec) as [e1 [T1 [S1 K1]]]
  end.
  simpl in T1, S1, K1.
  destruct completes; [|discriminate].
  erewrite bind_ok in E; [|reflexivity].
  unfold tool_branch in E. rewrite K1 in E.
  erewrite bind_ok in E; [|reflexivity].
  cbv [bind ret emit get_sess modify_sess time_time update_latency_metric
       first_sentence_mark first_audio_gate generate_and_send_tts raise
       add_ai_message] in E.
  destruct (accumulated_text l) as [|c0 cr] eqn:Hacc; simpl in E.
  - injection E as _ <-. simpl.
    exists (CallLLM (conversation (sess s) ++ [mkMessage User text]) :: e1).
    rewrite T1, <- app_assoc. split; [reflexivity|].
    simpl. rewrite <- S1, app_nil_r. reflexivity.
  - destruct (first_sentence_received l); simpl in E;
    destruct (tts (c0 :: cr)) eqn:Htts; simpl in E; try discriminate;
    destruct (first_audio_sent _); simpl in E;
    injection E as _ <-; simpl; eexists;
    (split; [rewrite T1, <- !app_assoc; reflexivity|]);
    cbn [tts_texts]; rewrite <- S1, !tts_texts_app; cbn [tts_texts];
    rewrite <- ?app_assoc; reflexivity.
Qed.

Lemma llm_calls_app a b : llm_calls (a ++ b) = llm_calls a ++ llm_calls b.
Proof.
  induction a as [|e a IH]; simpl; [reflexivity|].
  destruct e; rewrite ?IH; reflexivity.
Qed.

Lemma subseq_weaken_l {A} (a b c : list A) : subseq a b -> subseq a (c ++ b).
Proof. intro H. induction c as [|x c IH]; simpl; [exact H | apply subseq_skip; exact IH]. Qed.

Lemma subseq_weaken_r {A} (a b c : list A) : subseq a b -> subseq a (b ++ c).
Proof. intro H. rewrite <- (app_nil_r a). apply subseq_app; [exact H | apply subseq_nil_l]. Qed.

Lemma bind_Ok_inv {A B} (m : M A) (k : A -> M B) s b s' :
  bind m k s = (Ok b, s') -> exists a s1, m s = (Ok a, s1) /\ k a s1 = (Ok b, s').
Proof.
  unfold bind. destruct (m s) as [[a|e] s1]; intro E; [eauto | discriminate].
Qed.

Lemma concat_arguments_state ts : forall acc s, snd (concat_arguments ts acc s) = s.
Proof.
  induction ts as [|t ts IH]; intros acc s; simpl; [reflexivity|].
  destruct (fn_arguments t); [apply IH | reflexivity].
Qed.

Lemma generate_and_send_tts_ok text s u s' :
  generate_and_send_tts tts text s = (Ok u, s') ->
  exists a, trace s' = trace s ++ [CallTTS text; SendBytes a].
Proof.
  intro E. unfold generate_and_send_tts, bind, emit in E. simpl in E.
  destruct (tts text) as [a|]; [|discriminate].
  injection E as _ <-. exists a. simpl. rewrite <- app_assoc. reflexivity.
Qed.

Lemma raw_tts_nil : raw_tts llm [].
Proof. split; intros ? []. Qed.

Lemma on_chunk_segment_any ch l s l' s' rest :
  on_chunk tts clock ch l s = (Ok l', s') ->
  exists ext, trace s' = trace s ++ ext /\
    tts_texts ext ++ segment (accumulated_text l') rest
      = segment (accumulated_text l) (chunk_text ch :: rest) /\
    llm_calls ext = [].
Proof.
  intro E. unfold chunk_text. unfold on_chunk in E.
  destruct (delta_tool_calls ch) as [|tc tcs];
  cbv [bind emit send_json ret get_sess modify_sess time_time update_latency_metric
       first_sentence_mark first_audio_gate generate_and_send_tts raise] in E;
  (destruct (delta_content ch) as [[|c0 cr]|]; simpl in E;
   [ injection E as <- <-; exists [ReadChunk];
     split; [reflexivity|]; rewrite segment_cons, app_nil_r; split; reflexivity
   | destruct (first_token_received l); simpl in E;
     destruct (ends_with_punct (c0 :: cr)) eqn:Hp; simpl in E;
     try (destruct (first_sentence_received l); simpl in E);
     try (destruct (tts _) eqn:Htts; simpl in E; [|discriminate]);
     try (destruct (first_audio_sent _); simpl in E);
     injection E as <- <-; eexists;
     (split; [simpl; rewrite <- !app_assoc; reflexivity|]);
     rewrite segment_cons, Hp; cbn [tts_texts llm_calls app accumulated_text];
     split; reflexivity
   | injection E as <- <-; exists [ReadChunk];
     split; [reflexivity|]; rewrite segment_cons, app_nil_r; split; reflexivity ]).
Qed.

Lemma chunk_loop_segment_any cs : forall l s l' s',
  chunk_loop tts clock cs l s = (Ok l', s') ->
  exists ext, trace s' = trace s ++ ext /\
    tts_texts ext ++ segment (accumulated_text l') []
      = segment (accumulated_text l) (contents cs) /\
    llm_calls ext = [].
Proof.
  induction cs as [|ch cs IH]; intros l s l' s' E; simpl in E.
  - injection E as <- <-. exists []. rewrite app_nil_r. split; [reflexivity|].
    split; reflexivity.
  - apply bind_Ok_inv in E as [l1 [s1 [E1 E]]].
    destruct (on_chunk_segment_any ch l s l1 s1 (contents cs) E1) as [e1 [T1 [S1 L1]]].
    destruct (IH l1 s1 l' s' E) as [e2 [T2 [S2 L2]]].
    exists (e1 ++ e2). rewrite T2, T1, app_assoc. split; [reflexivity|].
    split; [|rewrite llm_calls_app, L1, L2; reflexivity].
    rewrite tts_texts_app, <- app_assoc, S2. exact S1.
Qed.

Lemma tool_branch_raw f l s l' s' :
  (forall text s u s', generate f text s = (Ok u, s') ->
     exists ext, trace s' = trace s ++ ext /\ raw_tts llm ext) ->
  tool_branch tts lookup (generate f) l s = (Ok l', s') ->
  l' = l /\ exists ext, trace s' = trace s ++ ext /\ raw_tts llm ext.
Proof.
  intros IH E. unfold tool_branch in E.
  destruct (tools l) as [|tc tcs].
  - injection E as <- <-. split; [reflexivity|].
    exists []. rewrite app_nil_r. split; [reflexivity | exact raw_tts_nil].
  - apply bind_Ok_inv in E as [q [s1 [Eq E]]].
    pose proof (concat_arguments_state (tc :: tcs) [] s) as Hs1. rewrite Eq in Hs1.
    simpl in Hs1. subst s1.
    apply bind_Ok_inv in E as [u1 [s2 [Ew E]]].
    destruct (generate_and_send_tts_ok _ _ _ _ Ew) as [aw Tw].
    destruct (lookup q) as [result|].
    + apply bind_Ok_inv in E as [u3 [s3 [Ep E]]].
      injection E as <- <-. split; [reflexivity|].
      unfold process_and_stream_with, try_finally in Ep.
      destruct (generate f (SUMMARIZE_PREFIX ++ result) s2) as [r s2'] eqn:Eg.
      cbv [bind modify_sess] in Ep. injection Ep as -> <-. simpl.
      destruct (IH _ _ _ _ Eg) as [e [Te [R1 R2]]].
      exists (CallTTS PLEASE_WAIT :: SendBytes aw :: e).
      rewrite Te, Tw, <- app_assoc. split; [reflexivity|].
      split.
      * intros t [Ht|Ht]; [left; symmetry; exact Ht|].
        destruct (R1 t Ht) as [Hw|[ms [Hm Hs]]]; [left; exact Hw|].
        right. exists ms. split; [exact Hm | exact Hs].
      * intros ms Hm. apply subseq_skip. exact (R2 ms Hm).
    + apply bind_Ok_inv in E as [u3 [s3 [_ E]]]. discriminate.
Qed.

Lemma raw_tts_compose ms e1 e2 e3 acc :
  tts_texts e1 ++ segment acc [] = segment [] (contents (fst (llm ms))) ->
  llm_calls e1 = [] -> raw_tts llm e2 ->
  tts_texts e3 = segment acc [] -> llm_calls e3 = [] ->
  raw_tts llm (CallLLM ms :: e1 ++ e2 ++ e3).
Proof.
  intros S1 L1 [R1 R2] X3 L3.
  assert (TT : tts_texts (CallLLM ms :: e1 ++ e2 ++ e3)
               = tts_texts e1 ++ tts_texts e2 ++ segment acc [])
    by (simpl; rewrite !tts_texts_app, X3; reflexivity).
  assert (LC : llm_calls (CallLLM ms :: e1 ++ e2 ++ e3) = ms :: llm_calls e2)
    by (simpl; rewrite !llm_calls_app, L1, L3, app_nil_r; reflexivity).
  unfold raw_tts. rewrite TT, LC. split.
  - intros t Ht. apply in_app_or in Ht as [Ht|Ht]; [|apply in_app_or in Ht as [Ht|Ht]].
    + right. exists ms. split; [left; reflexivity|].
      rewrite <- S1. apply in_or_app. left. exact Ht.
    + destruct (R1 t Ht) as [Hw|[ms' [Hm Hs]]]; [left; exact Hw|].
      right. exists ms'. split; [right; exact Hm | exact Hs].
    + right. exists ms. split; [left; reflexivity|].
      rewrite <- S1. apply in_or_app. right. exact Ht.
  - intros ms' [<-|Hm].
    + rewrite <- S1. apply subseq_app; [apply subseq_refl|].
      apply subseq_weaken_l. apply subseq_refl.
    + apply subseq_weaken_l, subseq_weaken_r. exact (R2 ms' Hm).
Qed.

Lemma generate_raw f : forall text s u s',
  generate f text s = (Ok u, s') ->
  exists ext, trace s' = trace s ++ ext /\ raw_tts llm ext.
Proof.
  induction f as [|f IH]; intros text s u s' E; [discriminate|].
  cbn [generate_llm_response] in E.
  do 4 (erewrite bind_ok in E; [|reflexivity]).
  simpl in E.
  destruct (llm (conversation (sess s) ++ [mkMessage User text])) as [chunks completes] eqn:Hllm.
  apply bind_Ok_inv in E as [l [s5 [Ec E]]].
  destruct (chunk_loop_segment_any chunks init_locals _ l s5 Ec) as [e1 [T1 [S1 L1]]].
  simpl in T1, S1.
  destruct completes; [|discriminate].
  erewrite bind_ok in E; [|reflexivity].
  apply bind_Ok_inv in E as [l2 [s6 [Et E]]].
  destruct (tool_branch_raw f l s5 l2 s6 IH Et) as [-> [e2 [T2 R2]]].
  assert (Tail : exists e3, trace s' = trace s6 ++ e3 /\
                   tts_texts e3 = segment (accumulated_text l) [] /\ llm_calls e3 = []).
  { cbv [bind ret emit get_sess modify_sess time_time update_latency_metric
         first_sentence_mark first_audio_gate generate_and_send_tts raise
         add_ai_message] in E.
    destruct (accumulated_text l) as [|c0 cr]; simpl in E.
    - injection E as _ <-. exists []. rewrite app_nil_r. auto.
    - destruct (first_sentence_received l); simpl in E;
      destruct (tts (c0 :: cr)); simpl in E; try discriminate;
      destruct (first_audio_sent _); simpl in E;
      injection E as _ <-; simpl; eexists;
      (split; [rewrite <- !app_assoc; reflexivity|]);
      split; reflexivity. }
  destruct Tail as [e3 [T3 [X3 L3]]].
  exists (CallLLM (conversation (sess s) ++ [mkMessage User text]) :: e1 ++ e2 ++ e3).
  split.
  - rewrite T3, T2, T1. simpl. rewrite <- !app_assoc. reflexivity.
  - apply (raw_tts_compose _ e1 e2 e3 (accumulated_text l)); try assumption.
    rewrite Hllm. exact S1.
Qed.

End Segments.

End Properties.

(* ================================================================== *)
(** * The claims on concrete and general inputs *)

(** C2: in every completed turn, with or without a function call, the
    texts handed to speech synthesis are raw: each one is the fixed wait
    prompt or a sentence of the segmentation of the fragments of a model
    stream requested in the turn (the outer one or that of the summarising
    sub-turn), trailing buffer included, and all the sentences of each such
    stream are handed over, in order.  When the outer stream has no
    function call, the texts are exactly its sentences.  The sanitizer is
    never applied to them: [process_sentence] is only called from
    [process_llm_content], which nothing calls. *)
Theorem generate_sends_raw_sentences llm tts lookup clock f text s u s' :
  generate_llm_response llm tts lookup clock f text s = (Ok u, s') ->
  exists ext, trace s' = trace s ++ ext /\
    raw_tts llm ext /\
    ((forall ch, In ch (fst (llm (conversation (sess s) ++ [mkMessage User text]))) ->
                 delta_tool_calls ch = []) ->
     tts_texts ext = segment [] (contents (fst (llm (conversation (sess s) ++ [mkMessage User text]))))).
Proof.
  intro E. destruct (generate_raw llm tts lookup clock f text s u s' E) as [ext [T R]].
  exists ext. split; [exact T|]. split; [exact R|].
  intro Hno. destruct f as [|f]; [discriminate|].
  destruct (generate_tts_segments llm tts lookup clock f text s u s' Hno E) as [ext' [T' S']].
  rewrite T in T'. apply app_inv_head in T'. subst ext'. exact S'.
Qed.

(** A turn with a successful function call: ["Checking"] is held back
    until after the wait prompt and the sub-turn's ["Done."]; every text
    reaches synthesis raw. *)
Lemma generate_sends_raw_sentences_witness :
  generate_llm_response llm_lookup tts_echo lookup_row clock_ticks 2 (lit "hi") st0
    = (Ok tt, snd (generate_llm_response llm_lookup tts_echo lookup_row clock_ticks 2 (lit "hi") st0)) /\
  exists ext,
    trace (snd (generate_llm_response llm_lookup tts_echo lookup_row clock_ticks 2 (lit "hi") st0))
      = trace st0 ++ ext /\
    raw_tts llm_lookup ext /\
    ((forall ch, In ch (fst (llm_lookup (conversation (sess st0) ++ [mkMessage User (lit "hi")]))) ->
                 delta_tool_calls ch = []) ->
     tts_texts ext = segment [] (contents (fst (llm_lookup (conversation (sess st0) ++ [mkMessage User (lit "hi")]))))).
Proof.
  assert (E : generate_llm_response llm_lookup tts_echo lookup_row clock_ticks 2 (lit "hi") st0
    = (Ok tt, snd (generate_llm_response llm_lookup tts_echo lookup_row clock_ticks 2 (lit "hi") st0)))
    by (vm_compute; reflexivity).
  split; [exact E|].
  exact (generate_sends_raw_sentences llm_lookup tts_echo lookup_row clock_ticks 2 (lit "hi") st0 tt _ E).
Defined.

(** A sentence containing a parenthesised aside reaches synthesis as it
    is, although the sanitizer would delete the aside. *)
Lemma unsanitized_sentence_reaches_tts :
  tts_texts (trace (run_endpoint llm_paren lookup_row one_turn)) = [lit "(hi)."] /\
  process_sentence (lit "(hi).") = lit ".".
Proof. split; vm_compute; reflexivity. Qed.

(** C3: when the lookup of a function call fails, the apology is spoken and
    then the [f"...{result}"] debug line raises [UnboundLocalError]; the
    whole turn fails: the text accumulated before the call is neither
    synthesised nor stored, no latency report is sent, and the turn ends
    with an [error] message and [processing_complete]. *)
Theorem lookup_failure_aborts_turn :
  trace (run_endpoint llm_lookup lookup_fail one_turn) =
    [CallSTT [1%N]; SendJson (JTranscription (lit "hi"));
     CallLLM [SYSTEM; mkMessage User (lit "hi"); mkMessage User (lit "hi")];
     ReadChunk; SendJson (JText (lit "Checking")); ReadChunk;
     CallTTS PLEASE_WAIT; SendBytes PLEASE_WAIT;
     CallTTS APOLOGY; SendBytes APOLOGY;
     SendJson (JError (exn_str (UnboundLocalError (lit "result"))));
     SendJson JProcessingComplete] /\
  conversation (sess (run_endpoint llm_lookup lookup_fail one_turn)) =
    [SYSTEM; mkMessage User (lit "hi")].
Proof. split; vm_compute; reflexivity. Qed.

(** C4: a turn whose function call succeeds sends [first_audio_response]
    twice: once in the summarising sub-turn, whose [finally] clause then
    resets [first_audio_sent], and once more for the outer turn's
    remaining text.  The connection runs a single turn. *)
Theorem nested_turn_repeats_first_audio :
  count_json JFirstAudio (trace (run_endpoint llm_lookup lookup_row one_turn)) = 2 /\
  count_json JProcessingComplete (trace (run_endpoint llm_lookup lookup_row one_turn)) = 1.
Proof. split; vm_compute; reflexivity. Qed.

(** C5: [calculate_latencies] on the checkpoints sttStart=0, sttEnd=2,
    llmStart=2, llmFirstToken=3, llmFirstSentence=4, ttsStart=4, ttsEnd=6,
    firstAudioResponse=4.5 and turn start 0 gives total 4.5, transcription
    2, time to first token 1, time to first sentence 2 and synthesis 2. *)
Theorem calculate_latencies_example :
  calculate_latencies (mkMetrics 0 0 2 2 3 4 4 6 (9 # 2)) =
  mkLatencies (9 # 2) 2 1 2 2.
Proof. reflexivity. Qed.

(** C6: [process_sentence] is a total function; applying it a second time
    only deletes characters of its first result (the [~] step has nothing
    left to replace).  It is not idempotent in general, see below. *)
Theorem process_sentence_reapply_deletes x :
  subseq (process_sentence (process_sentence x)) (process_sentence x).
Proof.
  set (y := process_sentence x).
  assert (Hy : sub m_tildes [c_bang] y = y).
  { unfold sub. apply re_sub_tildes_id. apply process_sentence_no_tilde. }
  unfold process_sentence at 1. cbv zeta. rewrite Hy.
  eapply subseq_trans; [apply strip_subseq|].
  eapply subseq_trans; [apply sub_delete|].
  eapply subseq_trans; [apply sub_delete|].
  apply sub_delete.
Qed.

(** Deleting [*a*] from [**a*b*] leaves [*b*], which a second pass
    deletes. *)
Lemma process_sentence_not_idempotent :
  process_sentence (process_sentence (lit "**a*b*")) <> process_sentence (lit "**a*b*").
Proof. vm_compute. discriminate. Qed.

(** C7: a completed turn whose stream is the fragments ["Hello"],
    [" there"], ["."], [" How"], [" are"], [" you"], ["?"] hands exactly
    two texts to synthesis, in this order: ["Hello there."] and
    [" How are you?"], the latter with its leading space. *)
Theorem hello_stream_two_sentences llm tts lookup clock f text s u s' :
  fst (llm (conversation (sess s) ++ [mkMessage User text])) =
    map frag ["Hello"; " there"; "."; " How"; " are"; " you"; "?"]%string ->
  generate_llm_response llm tts lookup clock (S f) text s = (Ok u, s') ->
  exists ext, trace s' = trace s ++ ext /\
    tts_texts ext = [lit "Hello there."; lit " How are you?"].
Proof.
  intros Hl E.
  destruct (generate_tts_segments llm tts lookup clock f text s u s') as [ext [T Sg]].
  - rewrite Hl. intros ch Hin. simpl in Hin.
    repeat (destruct Hin as [<-|Hin]; [reflexivity|]). destruct Hin.
  - exact E.
  - exists ext. split; [exact T|]. rewrite Sg, Hl. vm_compute. reflexivity.
Qed.

Lemma hello_stream_two_sentences_witness :
  exists ext,
    trace (snd (generate_llm_response llm_hello tts_echo lookup_row clock_ticks 1 (lit "hi") st0))
      = trace st0 ++ ext /\
    tts_texts ext = [lit "Hello there."; lit " How are you?"].
Proof.
  apply (hello_stream_two_sentences llm_hello tts_echo lookup_row clock_ticks 0 (lit "hi") st0 tt).
  - reflexivity.
  - vm_compute. reflexivity.
Defined.

(** The second sentence reaches synthesis with its leading space, which
    the sanitizer's [strip] would have removed: nothing trims it. *)
Lemma hello_stream_untrimmed :
  tts_texts (trace (run_endpoint llm_hello lookup_row one_turn))
    = [lit "Hello there."; lit " How are you?"] /\
  process_sentence (lit " How are you?") = lit "How are you?" /\
  lit " How are you?" <> lit "How are you?".
Proof.
  split; [vm_compute; reflexivity|]. split; [vm_compute; reflexivity|].
  intro H. vm_compute in H. discriminate H.
Qed.

(** C8 on a concrete idle session. *)
Lemma empty_transcription_fails_witness :
  is_processing (sess st0) = false /\
  stt_silent (audio_buffer (sess st0)) = Some [] /\
  fst (handle_message stt_silent llm_hello tts_echo lookup_row clock_ticks stop_msg st0) = Ok tt /\
  trace (snd (handle_message stt_silent llm_hello tts_echo lookup_row clock_ticks stop_msg st0)) =
    trace st0 ++ [CallSTT (audio_buffer (sess st0));
                  SendJson (JError (lit "Transcription resulted in empty text"));
                  SendJson JProcessingComplete] /\
  conversation (sess (snd (handle_message stt_silent llm_hello tts_echo lookup_row clock_ticks stop_msg st0))) =
    conversation (sess st0) /\
  is_processing (sess (snd (handle_message stt_silent llm_hello tts_echo lookup_row clock_ticks stop_msg st0))) = false.
Proof.
  split; [reflexivity|]. split; [reflexivity|].
  apply (empty_transcription_fails stt_silent llm_hello tts_echo lookup_row clock_ticks st0);
    reflexivity.
Defined.

(** C9: every successful run of [generate_llm_response] extends the trace
    by a segment in which each synthesis call is immediately followed by
    the frame carrying its audio: no further token is read while a
    sentence is being synthesised. *)
Theorem generate_awaits_synthesis llm tts lookup clock fuel text s u s' :
  generate_llm_response llm tts lookup clock fuel text s = (Ok u, s') ->
  exists ext, trace s' = trace s ++ ext /\ awaited tts ext.
Proof. intro E. exact (ok_generate llm tts lookup clock fuel text s u s' E). Qed.

Lemma generate_awaits_synthesis_witness :
  exists ext,
    trace (snd (generate_llm_response llm_hello tts_echo lookup_row clock_ticks 1 (lit "hi") st0))
      = trace st0 ++ ext /\ awaited tts_echo ext.
Proof.
  apply (generate_awaits_synthesis llm_hello tts_echo lookup_row clock_ticks 1 (lit "hi") st0 tt).
  vm_compute. reflexivity.
Defined.

(** The first sentence is dispatched after the third fragment is read; its
    audio is sent before the fourth fragment is read. *)
Lemma synthesis_blocks_token_stream :
  skipn 9 (trace (run_endpoint llm_hello lookup_row one_turn)) =
    CallTTS (lit "Hello there.") :: SendBytes (lit "Hello there.") ::
    SendJson JFirstAudio :: ReadChunk ::
    skipn 13 (trace (run_endpoint llm_hello lookup_row one_turn)) /\
  reads (firstn 9 (trace (run_endpoint llm_hello lookup_row one_turn))) = 3.
Proof. split; vm_compute; reflexivity. Qed.

(** C10 on a concrete idle session. *)
Lemma turn_request_repeats_user_text_witness :
  is_processing (sess st0) = false /\
  stt_hi (audio_buffer (sess st0)) = Some (lit "hi") /\
  exists ext,
    trace (snd (handle_message stt_hi llm_hello tts_echo lookup_row clock_ticks stop_msg st0)) =
    trace st0 ++
    [CallSTT (audio_buffer (sess st0)); SendJson (JTranscription (lit "hi"));
     CallLLM (conversation (sess st0) ++ [mkMessage User (lit "hi"); mkMessage User (lit "hi")])] ++ ext.
Proof.
  split; [reflexivity|]. split; [reflexivity|].
  apply (turn_request_repeats_user_text stt_hi llm_hello tts_echo lookup_row clock_ticks st0 (lit "hi"));
    [reflexivity | reflexivity | discriminate].
Defined.

(* ================================================================== *)
(** * Further properties of the code *)

(** ** Strings and the session table *)

Lemma pstr_eqb_eq a b : pstr_eqb a b = true <-> a = b.
Proof.
  revert b. induction a as [|x a IH]; intros [|y b]; simpl;
    split; intro H; try discriminate; try reflexivity.
  - apply andb_true_iff in H as [H1 H2]. apply N.eqb_eq in H1.
    apply IH in H2. subst. reflexivity.
  - injection H as -> ->. apply andb_true_iff.
    split; [apply N.eqb_refl | apply IH; reflexivity].
Qed.

Lemma pstr_eqb_spec a b : reflect (a = b) (pstr_eqb a b).
Proof. apply iff_reflect. symmetry. apply pstr_eqb_eq. Qed.

Lemma dict_get_set_same k v d : dict_get k (dict_set k v d) = Some v.
Proof.
  induction d as [|[k' v'] d IH]; simpl.
  - destruct (pstr_eqb_spec k k); congruence.
  - destruct (pstr_eqb_spec k k'); simpl.
    + destruct (pstr_eqb_spec k k); congruence.
    + destruct (pstr_eqb_spec k k'); [contradiction | exact IH].
Qed.

Lemma dict_get_set_other k k0 v d :
  k0 <> k -> dict_get k0 (dict_set k v d) = dict_get k0 d.
Proof.
  intro Hne. induction d as [|[k' v'] d IH]; simpl.
  - destruct (pstr_eqb_spec k0 k); [contradiction | reflexivity].
  - destruct (pstr_eqb_spec k k'); simpl.
    + subst k'. destruct (pstr_eqb_spec k0 k); [contradiction | reflexivity].
    + destruct (pstr_eqb_spec k0 k'); [reflexivity | exact IH].
Qed.

Lemma dict_get_notin k d : ~ In k (map fst d) -> dict_get k d = None.
Proof.
  induction d as [|[k' v'] d IH]; intro Hn; simpl; [reflexivity|].
  destruct (pstr_eqb_spec k k').
  - subst. exfalso. apply Hn. left. reflexivity.
  - apply IH. intro Hi. apply Hn. right. exact Hi.
Qed.

Lemma del_all_cons_other ks k v r :
  ~ In k ks -> del_all ks ((k, v) :: r) = option_map (cons (k, v)) (del_all ks r).
Proof.
  revert r. induction ks as [|k' ks IH]; intros r Hn; simpl; [reflexivity|].
  destruct (pstr_eqb_spec k' k).
  - subst. exfalso. apply Hn. left. reflexivity.
  - destruct (dict_del k' r) as [d'|]; simpl; [|reflexivity].
    apply IH. intro Hi. apply Hn. right. exact Hi.
Qed.

Lemma del_all_filter (p : pstr * session -> bool) d :
  NoDup (map fst d) ->
  del_all (map fst (filter p d)) d = Some (filter (fun kv => negb (p kv)) d).
Proof.
  induction d as [|[k v] r IH]; intro Hnd; simpl; [reflexivity|].
  inversion Hnd as [|? ? Hk Hr]; subst.
  destruct (p (k, v)); simpl.
  - destruct (pstr_eqb_spec k k); [|contradiction]. apply IH. exact Hr.
  - rewrite del_all_cons_other.
    + rewrite IH by exact Hr. reflexivity.
    + intro Hi. apply Hk. apply in_map_iff in Hi as [[k0 v0] [E Hi]].
      simpl in E. subst k0. apply filter_In in Hi as [Hi _].
      apply in_map_iff. exists (k, v0). split; [reflexivity | exact Hi].
Qed.

Lemma dict_get_filter (q : pstr * session -> bool) d k se :
  NoDup (map fst d) ->
  dict_get k (filter q d) = Some se <-> dict_get k d = Some se /\ q (k, se) = true.
Proof.
  induction d as [|[k' v] r IH]; intro Hnd; simpl.
  - split; [discriminate | intros [H _]; discriminate].
  - inversion Hnd as [|? ? Hk Hr]; subst.
    destruct (q (k', v)) eqn:Hq; simpl.
    + destruct (pstr_eqb_spec k k').
      * subst k'. split.
        -- intro E. injection E as <-. split; [reflexivity | exact Hq].
        -- intros [E _]. exact E.
      * apply IH. exact Hr.
    + destruct (pstr_eqb_spec k k').
      * subst k'. rewrite dict_get_notin.
        -- split; [discriminate|]. intros [E Hq']. injection E as <-. congruence.
        -- intro Hi. apply Hk. apply in_map_iff in Hi as [[k0 v0] [E Hi]].
           simpl in E. subst k0. apply filter_In in Hi as [Hi _].
           apply in_map_iff. exists (k, v0). split; [reflexivity | exact Hi].
      * apply IH. exact Hr.
Qed.

(** ** The sanitizer *)

Lemma re_sub_nonascii_out f : forall s, List.length s < f ->
  Forall (fun c => (c < 128)%N) (re_sub m_nonascii [] f s).
Proof.
  induction f as [|f IH]; intros s Hl; simpl; [inversion Hl|].
  destruct s as [|c r]; [constructor|].
  destruct (m_nonascii (c :: r)) as [[|k]|] eqn:Em.
  - unfold m_nonascii in Em. destruct (run_len _ _); discriminate.
  - simpl. apply IH. rewrite length_skipn. simpl in *. lia.
  - constructor.
    + unfold m_nonascii in Em. cbn [run_len] in Em.
      destruct (N.leb_spec 128 c); [discriminate | assumption].
    + apply IH. simpl in Hl. lia.
Qed.

Lemma lstrip_head t c : hd_error (lstrip t) = Some c -> is_space c = false.
Proof.
  induction t as [|x t IH]; simpl; [discriminate|].
  destruct (is_space x) eqn:Hx; [exact IH|]. simpl. intro E. injection E as <-. exact Hx.
Qed.

Lemma lstrip_suffix t : exists pre, t = pre ++ lstrip t.
Proof.
  induction t as [|x t [pre IH]]; simpl; [exists []; reflexivity|].
  destruct (is_space x).
  - exists (x :: pre). simpl. rewrite <- IH. reflexivity.
  - exists []. reflexivity.
Qed.

Lemma strip_edges s :
  (forall c, hd_error (strip s) = Some c -> is_space c = false) /\
  (forall c, hd_error (rev (strip s)) = Some c -> is_space c = false).
Proof.
  unfold strip. split; intros c H.
  - set (u := lstrip s) in *.
    destruct (lstrip_suffix (rev u)) as [pre Hp].
    set (w := lstrip (rev u)) in *.
    apply (lstrip_head s). fold u.
    assert (Hu : u = rev w ++ rev pre).
    { rewrite <- (rev_involutive u), Hp, rev_app_distr. reflexivity. }
    rewrite Hu. destruct (rev w) as [|x y]; [discriminate | exact H].
  - rewrite rev_involutive in H. exact (lstrip_head _ _ H).
Qed.

Lemma subseq_length {A} (a b : list A) : subseq a b -> List.length a <= List.length b.
Proof. induction 1; simpl; lia. Qed.

Lemma re_sub_tildes_length f : forall s,
  List.length (re_sub m_tildes [c_bang] f s) <= List.length s.
Proof.
  induction f as [|f IH]; intro s; simpl; [lia|].
  destruct s as [|c r]; [simpl; lia|].
  destruct (m_tildes (c :: r)) as [[|k]|].
  - simpl. specialize (IH r). lia.
  - simpl. specialize (IH (skipn k r)). rewrite length_skipn in IH. lia.
  - simpl. specialize (IH r). lia.
Qed.

(** ** [re.split] on sentence gaps *)

Lemma run_len_prefix (p : N -> bool) s :
  Forall (fun c => p c = true) (firstn (run_len p s) s).
Proof.
  induction s as [|c s IH]; simpl; [constructor|].
  destruct (p c) eqn:Hc; simpl; [constructor; assumption | constructor].
Qed.

Lemma run_len_nth (p : N -> bool) s k x :
  k < run_len p s -> nth_error s k = Some x -> p x = true.
Proof.
  revert k. induction s as [|c s IH]; intros k Hk Hn; simpl in Hk; [lia|].
  destruct (p c) eqn:Hc; [|lia].
  destruct k as [|k]; simpl in Hn.
  - injection Hn as <-. exact Hc.
  - apply (IH k); [lia | exact Hn].
Qed.

Lemma m_sentence_gap_spec prev s n :
  m_sentence_gap prev s = Some n ->
  exists p, prev = Some p /\ is_end_punct p = true /\ run_len is_space s = n.
Proof.
  unfold m_sentence_gap. destruct prev as [p|]; [|discriminate].
  destruct (is_end_punct p) eqn:Hp; [|discriminate].
  destruct (run_len is_space s) eqn:Hr; [discriminate|].
  intro E. injection E as <-. exists p. auto.
Qed.

Lemma space_not_end_punct c : is_space c = true -> is_end_punct c = false.
Proof.
  unfold is_end_punct, c_dot, c_bang, c_qmark. intro H.
  destruct (N.eqb_spec c 46); [subst; discriminate|].
  destruct (N.eqb_spec c 33); [subst; discriminate|].
  destruct (N.eqb_spec c 63); [subst; discriminate|].
  reflexivity.
Qed.

Lemma re_split_nonnil m f prev cur s : re_split m f prev cur s <> [].
Proof.
  revert prev cur s. induction f as [|f IH]; intros prev cur s; simpl; [discriminate|].
  destruct s as [|c r]; [discriminate|].
  destruct (m prev (c :: r)) as [[|k]|]; [apply IH | discriminate | apply IH].
Qed.

Lemma re_split_gap_join f : forall prev cur s,
  exists seps,
    S (List.length seps) = List.length (re_split m_sentence_gap f prev cur s) /\
    Forall (fun w => w <> [] /\ Forall (fun c => is_space c = true) w) seps /\
    join_pieces (re_split m_sentence_gap f prev cur s) seps = cur ++ s.
Proof.
  induction f as [|f IH]; intros prev cur s; simpl.
  - exists []. repeat split; constructor.
  - destruct s as [|c r].
    + exists []. rewrite app_nil_r. repeat split; constructor.
    + destruct (m_sentence_gap prev (c :: r)) as [[|k]|] eqn:Em.
      * destruct (IH (Some c) (cur ++ [c]) r) as [seps [L [F J]]].
        exists seps. rewrite J, <- app_assoc. auto.
      * destruct (m_sentence_gap_spec _ _ _ Em) as [p [_ [_ Hr]]].
        destruct (IH (nth_error (c :: r) k) [] (skipn (S k) (c :: r))) as [seps [L [F J]]].
        simpl in L, J.
        exists (firstn (S k) (c :: r) :: seps). simpl List.length. split; [lia|].
        split.
        -- constructor; [|exact F]. split; [simpl; discriminate|].
           rewrite <- Hr. apply run_len_prefix.
        -- cbn [join_pieces]. rewrite J.
           change (skipn k r) with (skipn (S k) (c :: r)).
           rewrite firstn_skipn. reflexivity.
      * destruct (IH (Some c) (cur ++ [c]) r) as [seps [L [F J]]].
        exists seps. rewrite J, <- app_assoc. auto.
Qed.

Lemma removelast_cons_nonnil {A} (a : A) l :
  l <> [] -> removelast (a :: l) = a :: removelast l.
Proof. destruct l; [contradiction | reflexivity]. Qed.

Lemma re_split_gap_ends f : forall prev cur s,
  (forall p, prev = Some p -> is_end_punct p = true -> exists c0, cur = c0 ++ [p]) ->
  Forall (fun x => ends_with_punct x = true) (removelast (re_split m_sentence_gap f prev cur s)).
Proof.
  induction f as [|f IH]; intros prev cur s Hinv; simpl; [constructor|].
  destruct s as [|c r]; [constructor|].
  destruct (m_sentence_gap prev (c :: r)) as [[|k]|] eqn:Em.
  - apply IH. intros p E. injection E as <-. intros _. exists cur. reflexivity.
  - destruct (m_sentence_gap_spec _ _ _ Em) as [p [Hp [Hpu Hr]]].
    rewrite removelast_cons_nonnil by apply re_split_nonnil.
    constructor.
    + destruct (Hinv p Hp Hpu) as [c0 ->]. unfold ends_with_punct.
      rewrite rev_app_distr. exact Hpu.
    + apply IH. intros q Hq Hqp.
      exfalso. rewrite space_not_end_punct in Hqp; [discriminate|].
      apply (run_len_nth is_space (c :: r) k); [lia | exact Hq].
  - apply IH. intros p E. injection E as <-. intros _. exists cur. reflexivity.
Qed.

(** ** [process_llm_content] *)

Lemma store_sentences_effect clock ss : forall s,
  let ps := map process_sentence (filter non_empty ss) in
  fst (store_sentences clock ss s) = Ok tt /\
  trace (snd (store_sentences clock ss s)) = trace s /\
  conversation (sess (snd (store_sentences clock ss s)))
    = conversation (sess s) ++ map (mkMessage Assistant) ps /\
  llm_output_sentences (sess (snd (store_sentences clock ss s)))
    = llm_output_sentences (sess s) ++ ps /\
  current_turn (sess (snd (store_sentences clock ss s)))
    = current_turn (sess s) + List.length ps.
Proof.
  induction ss as [|x ss IH]; intro s; simpl.
  - rewrite !app_nil_r. repeat split. lia.
  - destruct x as [|c r]; simpl.
    + apply IH.
    + destruct (IH (mkSt (set_last_activity (clock (ticks s))
          (set_current_turn (S (current_turn (sess s)))
             (set_conversation
                (conversation (sess s) ++ [mkMessage Assistant (process_sentence (c :: r))])
                (set_llm_output_sentences
                   (llm_output_sentences (sess s) ++ [process_sentence (c :: r)]) (sess s)))))
          (trace s) (S (ticks s)))) as [R [T [C [L K]]]].
      cbv [bind ret modify_sess add_ai_message time_time] in *.
      simpl in *. rewrite R, T, C, L, K, <- !app_assoc. repeat split. lia.
Qed.

(** ** Extra properties *)

(** [create_session] stores a fresh session ([[SYSTEM]] history, turn 0,
    not processing, empty audio buffer) under the id it returns, and
    leaves every other session as it was. *)
Theorem create_session_lookup sid now m :
  fst (manager_create_session sid now m) = sid /\
  dict_get sid (sessions (snd (manager_create_session sid now m))) = Some (new_session now) /\
  (forall k, k <> sid ->
     dict_get k (sessions (snd (manager_create_session sid now m))) = dict_get k (sessions m)).
Proof.
  simpl. split; [reflexivity|]. split; [apply dict_get_set_same|].
  intros k Hk. apply dict_get_set_other. exact Hk.
Qed.

(** With distinct session ids (as a dict has), [clean_old_sessions] never
    raises, and it removes exactly the sessions idle for longer than the
    timeout, keeping the others in their order. *)
Theorem clean_old_sessions_filters current_time m :
  NoDup (map fst (sessions m)) ->
  clean_old_sessions current_time m =
    Some (mkManager
            (filter (fun kv => negb (is_stale current_time (session_timeout m) (snd kv)))
               (sessions m))
            (session_timeout m)).
Proof.
  intro Hnd. unfold clean_old_sessions.
  rewrite (del_all_filter (fun kv => is_stale current_time (session_timeout m) (snd kv))
             _ Hnd).
  reflexivity.
Qed.

Lemma clean_old_sessions_filters_witness :
  NoDup (map fst (sessions (mkManager [(lit "a", new_session 0); (lit "b", new_session 5000)] 3600))) /\
  clean_old_sessions 4000 (mkManager [(lit "a", new_session 0); (lit "b", new_session 5000)] 3600) =
    Some (mkManager
            (filter (fun kv => negb (is_stale 4000 3600 (snd kv)))
               [(lit "a", new_session 0); (lit "b", new_session 5000)])
            3600).
Proof.
  assert (Hnd : NoDup (map fst (sessions (mkManager [(lit "a", new_session 0);
                                                     (lit "b", new_session 5000)] 3600)))).
  { simpl. constructor; [simpl; intros [H|H]; [discriminate | exact H]|].
    constructor; [intros []| constructor]. }
  split; [exact Hnd|].
  exact (clean_old_sessions_filters 4000 _ Hnd).
Defined.

(** After [clean_old_sessions], a session id is found with a session
    exactly when it was found with it before and that session's last
    activity is at most [session_timeout] seconds old. *)
Theorem clean_old_sessions_lookup current_time m :
  NoDup (map fst (sessions m)) ->
  exists m', clean_old_sessions current_time m = Some m' /\
    session_timeout m' = session_timeout m /\
    forall k se,
      dict_get k (sessions m') = Some se <->
      dict_get k (sessions m) = Some se /\
      (current_time - last_activity se <= session_timeout m)%Q.
Proof.
  intro Hnd. eexists. split.
  { unfold clean_old_sessions.
    rewrite (del_all_filter (fun kv => is_stale current_time (session_timeout m) (snd kv))
               _ Hnd).
    reflexivity. }
  split; [reflexivity|]. intros k se. simpl.
  rewrite (dict_get_filter _ _ k se Hnd). simpl.
  unfold is_stale. rewrite negb_involutive, Qle_bool_iff. reflexivity.
Qed.

Lemma clean_old_sessions_lookup_witness :
  NoDup (map fst (sessions (mkManager [(lit "a", new_session 0); (lit "b", new_session 5000)] 3600))) /\
  exists m', clean_old_sessions 4000 (mkManager [(lit "a", new_session 0); (lit "b", new_session 5000)] 3600) = Some m' /\
    session_timeout m' = 3600%Q /\
    forall k se,
      dict_get k (sessions m') = Some se <->
      dict_get k [(lit "a", new_session 0); (lit "b", new_session 5000)] = Some se /\
      (4000 - last_activity se <= 3600)%Q.
Proof.
  assert (Hnd : NoDup (map fst (sessions (mkManager [(lit "a", new_session 0);
                                                     (lit "b", new_session 5000)] 3600)))).
  { simpl. constructor; [simpl; intros [H|H]; [discriminate | exact H]|].
    constructor; [intros []| constructor]. }
  split; [exact Hnd|].
  exact (clean_old_sessions_lookup 4000 _ Hnd).
Defined.

(** For a known session, [add_to_audio_buffer] followed by
    [get_and_clear_audio_buffer] returns the previous buffer followed by the
    added bytes, leaves that session with an empty buffer and otherwise
    unchanged, and leaves every other session as it was. *)
Theorem audio_buffer_round_trip sid audio_data m se :
  dict_get sid (sessions m) = Some se ->
  exists m1 m2,
    add_to_audio_buffer sid audio_data m = Some m1 /\
    get_and_clear_audio_buffer sid m1 = Some (audio_buffer se ++ audio_data, m2) /\
    dict_get sid (sessions m2) = Some (set_audio_buffer [] se) /\
    (forall k, k <> sid -> dict_get k (sessions m2) = dict_get k (sessions m)).
Proof.
  intro H. unfold add_to_audio_buffer. rewrite H.
  eexists; eexists. split; [reflexivity|].
  unfold get_and_clear_audio_buffer. simpl. rewrite dict_get_set_same. simpl.
  split; [reflexivity|]. simpl. split.
  - rewrite dict_get_set_same. destruct se; reflexivity.
  - intros k Hk. rewrite !dict_get_set_other by exact Hk. reflexivity.
Qed.

Lemma audio_buffer_round_trip_witness :
  dict_get (lit "a") (sessions (mkManager [(lit "a", new_session 0)] 3600)) = Some (new_session 0) /\
  exists m1 m2,
    add_to_audio_buffer (lit "a") [7%N; 8%N] (mkManager [(lit "a", new_session 0)] 3600) = Some m1 /\
    get_and_clear_audio_buffer (lit "a") m1 = Some (audio_buffer (new_session 0) ++ [7%N; 8%N], m2) /\
    dict_get (lit "a") (sessions m2) = Some (set_audio_buffer [] (new_session 0)) /\
    (forall k, k <> lit "a" -> dict_get k (sessions m2) = dict_get k [(lit "a", new_session 0)]).
Proof.
  split; [reflexivity|].
  apply (audio_buffer_round_trip (lit "a") [7%N; 8%N] (mkManager [(lit "a", new_session 0)] 3600)).
  reflexivity.
Defined.

(** The sanitized sentence consists of ASCII characters other than [~],
    and it neither begins nor ends with whitespace. *)
Theorem process_sentence_output_shape x :
  Forall (fun c => (c < 128)%N /\ c <> c_tilde) (process_sentence x) /\
  (forall c, hd_error (process_sentence x) = Some c -> is_space c = false) /\
  (forall c, hd_error (rev (process_sentence x)) = Some c -> is_space c = false).
Proof.
  split; [|apply strip_edges].
  apply Forall_and; [|apply process_sentence_no_tilde].
  unfold process_sentence.
  eapply subseq_Forall; [apply strip_subseq|].
  apply re_sub_nonascii_out. lia.
Qed.

(** Sanitizing never makes a sentence longer. *)
Theorem process_sentence_shortens x :
  List.length (process_sentence x) <= List.length x.
Proof.
  unfold process_sentence.
  eapply PeanoNat.Nat.le_trans; [apply subseq_length, strip_subseq|].
  eapply PeanoNat.Nat.le_trans; [apply subseq_length, sub_delete|].
  eapply PeanoNat.Nat.le_trans; [apply subseq_length, sub_delete|].
  eapply PeanoNat.Nat.le_trans; [apply subseq_length, sub_delete|].
  apply re_sub_tildes_length.
Qed.

(** [re.split(r"(?<=[.!?])\s+", content)] loses only the whitespace runs
    it splits at: the pieces, rejoined with one non-empty whitespace run
    between consecutive pieces, give back [content]. *)
Theorem split_sentences_round_trip content :
  exists seps,
    S (List.length seps) = List.length (split_sentences content) /\
    Forall (fun w => w <> [] /\ Forall (fun c => is_space c = true) w) seps /\
    join_pieces (split_sentences content) seps = content.
Proof. apply re_split_gap_join. Qed.

(** Every piece of [split_sentences] except the last ends with [.], [!]
    or [?] (so it is not empty). *)
Theorem split_sentences_pieces_end_sentences content :
  Forall (fun x => ends_with_punct x = true) (removelast (split_sentences content)).
Proof. apply re_split_gap_ends. intros p E. discriminate. Qed.

(** [process_llm_content] never fails and sends nothing: it appends the
    sanitized form of every non-empty piece of the split, in order, both to
    [llm_output_sentences] and to the history as assistant messages, and
    advances [current_turn] by their number. *)
Theorem process_llm_content_effect clock content s :
  let ps := map process_sentence (filter non_empty (split_sentences content)) in
  fst (process_llm_content clock content s) = Ok tt /\
  trace (snd (process_llm_content clock content s)) = trace s /\
  conversation (sess (snd (process_llm_content clock content s)))
    = conversation (sess s) ++ map (mkMessage Assistant) ps /\
  llm_output_sentences (sess (snd (process_llm_content clock content s)))
    = llm_output_sentences (sess s) ++ ps /\
  current_turn (sess (snd (process_llm_content clock content s)))
    = current_turn (sess s) + List.length ps.
Proof. apply store_sentences_effect. Qed.

(** ** History growth of the turn code *)

Lemma hist_refl se : hist_ext se se.
Proof.
  exists []. rewrite app_nil_r. split; [reflexivity|].
  split; [apply Forall_nil | simpl; lia].
Qed.

Lemma hist_trans a b c : hist_ext a b -> hist_ext b c -> hist_ext a c.
Proof.
  intros [e1 [C1 [F1 T1]]] [e2 [C2 [F2 T2]]]. exists (e1 ++ e2).
  rewrite C2, C1, app_assoc. split; [reflexivity|].
  split; [apply Forall_app; split; assumption|]. rewrite T2, T1, length_app. lia.
Qed.

Lemma hist_setter se se' :
  conversation se' = conversation se -> current_turn se' = current_turn se -> hist_ext se se'.
Proof.
  intros C T. exists []. rewrite C, T, app_nil_r. split; [reflexivity|].
  split; [apply Forall_nil | simpl; lia].
Qed.

Lemma hist_add se r t :
  r <> System ->
  hist_ext se (set_current_turn (S (current_turn se))
                 (set_conversation (conversation se ++ [mkMessage r t]) se)).
Proof.
  intro Hr. exists [mkMessage r t]. simpl. split; [reflexivity|].
  split; [constructor; [exact Hr | constructor]|]. lia.
Qed.

Lemma grows_same {A} (m : M A) : (forall s, sess (snd (m s)) = sess s) -> grows m.
Proof. intros H s. rewrite H. apply hist_refl. Qed.

Lemma grows_ret {A} (a : A) : grows (ret a).
Proof. apply grows_same. reflexivity. Qed.

Lemma grows_raise {A} e : grows (@raise A e).
Proof. apply grows_same. reflexivity. Qed.

Lemma grows_get_sess : grows get_sess.
Proof. apply grows_same. reflexivity. Qed.

Lemma grows_emit e : grows (emit e).
Proof. apply grows_same. reflexivity. Qed.

Lemma grows_time_time clock : grows (time_time clock).
Proof. apply grows_same. reflexivity. Qed.

Lemma grows_modify_sess f : (forall se, hist_ext se (f se)) -> grows (modify_sess f).
Proof. intros H s. apply H. Qed.

Lemma grows_bind {A B} (m : M A) (k : A -> M B) :
  grows m -> (forall a, grows (k a)) -> grows (bind m k).
Proof.
  intros Hm Hk s. unfold bind. pose proof (Hm s) as H1.
  destruct (m s) as [[a|e] s']; simpl in *; [|exact H1].
  eapply hist_trans; [exact H1 | apply Hk].
Qed.

Lemma grows_try_except {A} (m : M A) h :
  grows m -> (forall e, grows (h e)) -> grows (try_except m h).
Proof.
  intros Hm Hh s. unfold try_except. pose proof (Hm s) as H1.
  destruct (m s) as [[a|e] s']; simpl in *; [exact H1|].
  eapply hist_trans; [exact H1 | apply Hh].
Qed.

Lemma grows_try_finally {A} (m : M A) f : grows m -> grows f -> grows (try_finally m f).
Proof.
  intros Hm Hf s. rewrite snd_try_finally.
  eapply hist_trans; [apply Hm | apply Hf].
Qed.

Ltac gstep :=
  match goal with
  | |- grows (bind _ _) => apply grows_bind; [| intros ?]
  | |- grows (ret _) => apply grows_ret
  | |- grows (raise _) => apply grows_raise
  | |- grows get_sess => apply grows_get_sess
  | |- grows (time_time _) => apply grows_time_time
  | |- grows (emit _) => apply grows_emit
  | |- grows (send_json _) => apply grows_emit
  | |- grows (modify_sess _) =>
      apply grows_modify_sess; intro; cbv beta;
      first [ apply hist_setter; reflexivity | apply hist_add; discriminate ]
  | |- grows (try_finally _ _) => apply grows_try_finally
  | |- grows (try_except _ _) => apply grows_try_except; [| intros ?]
  | |- grows (if ?b then _ else _) => destruct b
  | |- grows (match ?x with _ => _ end) => destruct x
  end.

Section GrowsTurn.

Variable stt : audio -> option pstr.
Variable llm : list message -> list chunk * bool.
Variable tts : pstr -> option audio.
Variable lookup : pstr -> option pstr.
Variable clock : nat -> Q.

Lemma grows_update_latency_metric k v : grows (update_latency_metric k v).
Proof. unfold update_latency_metric. repeat gstep. Qed.

Lemma grows_add_message text :
  grows (add_user_message clock text) /\ grows (add_ai_message clock text).
Proof. unfold add_user_message, add_ai_message. split; repeat gstep. Qed.

Lemma grows_generate_and_send_tts text : grows (generate_and_send_tts tts text).
Proof. unfold generate_and_send_tts. repeat gstep. Qed.

Lemma grows_first_audio_gate : grows (first_audio_gate clock).
Proof. unfold first_audio_gate. repeat (gstep || apply grows_update_latency_metric). Qed.

Lemma grows_first_sentence_mark l : grows (first_sentence_mark clock l).
Proof. unfold first_sentence_mark. repeat (gstep || apply grows_update_latency_metric). Qed.

Ltac gall :=
  repeat (gstep || apply grows_update_latency_metric
          || apply grows_generate_and_send_tts || apply grows_first_audio_gate
          || apply grows_first_sentence_mark
          || apply (proj1 (grows_add_message _))
          || apply (proj2 (grows_add_message _))).

Lemma grows_chunk_loop cs : forall l, grows (chunk_loop tts clock cs l).
Proof.
  induction cs as [|ch cs IH]; intro l; simpl; [gall|].
  apply grows_bind; [unfold on_chunk; gall | intro; apply IH].
Qed.

Lemma grows_concat_arguments ts : forall acc, grows (concat_arguments ts acc).
Proof.
  induction ts as [|t ts IH]; intro acc; simpl; [gall|].
  destruct (fn_arguments t); [apply IH | gall].
Qed.

Lemma grows_generate fuel : forall text, grows (generate_llm_response llm tts lookup clock fuel text).
Proof.
  induction fuel as [|f IH]; intro text; simpl; [gall|].
  repeat (gall || apply grows_chunk_loop || apply grows_concat_arguments
          || (unfold tool_branch, process_and_stream_with) || apply IH).
Qed.

Lemma grows_handle_message m : grows (handle_message stt llm tts lookup clock m).
Proof.
  unfold handle_message, stop_recording, reset_latency_metrics, turn_body,
    transcribe_audio, process_and_stream, process_and_stream_with.
  repeat (gall || apply grows_generate).
Qed.

Lemma grows_serve ms : grows (serve stt llm tts lookup clock ms).
Proof.
  induction ms as [|m ms IH]; simpl; [gall|].
  apply grows_bind; [apply grows_handle_message | intro; exact IH].
Qed.

End GrowsTurn.

(** ** Facts about one turn *)

Lemma bind_assoc_at {A B C} (m : M A) (f : A -> M B) (g : B -> M C) s :
  bind (bind m f) g s = bind m (fun x => bind (f x) g) s.
Proof. unfold bind. destruct (m s) as [[a|e] s']; reflexivity. Qed.

Lemma completions_closed : closedP (fun ext => completions ext = 0).
Proof.
  unfold completions, count_json. split; [reflexivity|].
  intros a b Ha Hb. rewrite filter_app, length_app, Ha, Hb. reflexivity.
Qed.

Lemma completions_turn_event e : turn_event e = true -> completions [e] = 0.
Proof.
  unfold completions, count_json.
  destruct e as [j| | | | | |]; try destruct j; simpl; congruence.
Qed.

Ltac ktrue :=
  repeat first
    [ apply (keeps_bind _ true_closed); [| intros ?]
    | apply (keeps_ret _ true_closed)
    | apply (keeps_raise _ true_closed)
    | apply (keeps_get_sess _ true_closed)
    | apply (keeps_modify_sess _ true_closed)
    | apply (keeps_time_time _ true_closed)
    | apply keeps_emit; exact I
    | refine (proj1 (keeps_add_message _ _ true_closed _))
    | apply keeps_update_latency_metric; first [exact true_closed | intros; exact I]
    | apply keeps_process_and_stream; first [exact true_closed | intros; exact I]
    | match goal with |- keeps _ (match ?x with _ => _ end) => destruct x end ].

Section TurnFacts.

Variable stt : audio -> option pstr.
Variable llm : list message -> list chunk * bool.
Variable tts : pstr -> option audio.
Variable lookup : pstr -> option pstr.
Variable clock : nat -> Q.

Local Abbreviation handle := (handle_message stt llm tts lookup clock).
Local Abbreviation tb := (turn_body stt llm tts lookup clock).


Lemma stop_idle_trace s :
  is_processing (sess s) = false ->
  trace (snd (handle stop_msg s)) =
    trace (snd (tb (turn_start clock s))) ++
    match fst (tb (turn_start clock s)) with
    | Ok _ => []
    | Err e => [SendJson (JError (exn_str e))]
    end ++ [SendJson JProcessingComplete].
Proof.
  intro H.
  change (handle stop_msg s) with (stop_recording stt llm tts lookup clock s).
  unfold turn_start, stop_recording.
  generalize tb as t. intro t.
  cbv [bind reset_latency_metrics time_time modify_sess get_sess ret send_json emit].
  simpl. rewrite H. unfold try_finally, try_except.
  destruct (t _) as [[u|e] s3]; simpl; rewrite <- ?app_assoc; reflexivity.
Qed.

Lemma turn_body_calls_stt s :
  exists ext, trace (snd (tb s)) = trace s ++ CallSTT (audio_buffer (sess s)) :: ext.
Proof.
  unfold turn_body. erewrite bind_ok; [|reflexivity].
  unfold transcribe_audio.
  repeat (rewrite bind_assoc_at || (erewrite bind_ok; [|reflexivity])); cbv beta.
  repeat (rewrite bind_assoc_at || (erewrite bind_ok; [|reflexivity])); cbv beta.
  repeat (rewrite bind_assoc_at || (erewrite bind_ok; [|reflexivity])); cbv beta.
  match goal with
  | |- exists ext, trace (snd (?R ?x)) = _ =>
      assert (K : keeps (fun _ => True) R) by ktrue;
      destruct (K x) as [ext [E _]]
  end.
  exists ext. rewrite E. simpl. rewrite <- app_assoc. reflexivity.
Qed.

Lemma handle_ok m s :
  (forall n, m <> MText (TNonDict n)) -> fst (handle m s) = Ok tt.
Proof.
  intro Hm. unfold handle_message.
  destruct m as [a|[ty act|n|]|]; try reflexivity; [|destruct (Hm n); reflexivity].
  destruct (field_is ty _); [reflexivity|].
  destruct (field_is act _); [|reflexivity].
  unfold stop_recording. generalize tb as t. intro t.
  cbv [bind reset_latency_metrics time_time modify_sess get_sess ret send_json emit
       try_finally try_except].
  destruct (is_processing _); [reflexivity|].
  destruct (t _) as [[[]|e] s3]; reflexivity.
Qed.

Lemma serve_app_ok ms1 rest s :
  (forall n, ~ In (MText (TNonDict n)) ms1) ->
  serve stt llm tts lookup clock (ms1 ++ rest) s
    = serve stt llm tts lookup clock rest (snd (serve stt llm tts lookup clock ms1 s)) /\
  fst (serve stt llm tts lookup clock ms1 s) = Ok tt.
Proof.
  revert s. induction ms1 as [|m ms1 IH]; intros s Hn; simpl; [split; reflexivity|].
  pose proof (handle_ok m s (fun n E => Hn n (or_introl E))) as Hok.
  unfold bind. destruct (handle m s) as [r s'] eqn:Eh. simpl in Hok. subst r.
  apply IH. intros n Hi. apply (Hn n). right. exact Hi.
Qed.

Lemma serve_frames frames a rest s :
  serve stt llm tts lookup clock (map MBytes (frames ++ [a]) ++ rest) s
    = serve stt llm tts lookup clock rest (mkSt (set_audio_buffer a (sess s)) (trace s) (ticks s)).
Proof.
  revert s. induction frames as [|b frames IH]; intro s; [reflexivity|].
  simpl. unfold bind at 1. simpl. rewrite IH. simpl.
  destruct (sess s); reflexivity.
Qed.

Lemma serve_idle_flag ms : forall s,
  is_processing (sess s) = false ->
  is_processing (sess (snd (serve stt llm tts lookup clock ms s))) = false.
Proof.
  induction ms as [|m ms IH]; intros s H; simpl; [exact H|].
  pose proof (proj1 (handle_message_idle stt llm tts lookup clock m s H)) as H1.
  unfold bind. destruct (handle m s) as [[u|e] s'] eqn:Eh; simpl in *.
  - apply IH. exact H1.
  - exact H1.
Qed.

Lemma on_chunk_text ch l s l' s' :
  on_chunk tts clock ch l s = (Ok l', s') ->
  complete_text l' = complete_text l ++ chunk_text ch /\
  conversation (sess s') = conversation (sess s) /\
  (delta_tool_calls ch = [] -> tools l' = tools l).
Proof.
  intro E. unfold chunk_text. unfold on_chunk in E.
  destruct (delta_tool_calls ch) as [|tc tcs] eqn:Ht;
  cbv [bind emit send_json ret get_sess modify_sess time_time update_latency_metric
       first_sentence_mark first_audio_gate generate_and_send_tts raise] in E;
  (destruct (delta_content ch) as [[|c0 cr]|]; simpl in E;
   [ | destruct (first_token_received l); simpl in E;
       destruct (ends_with_punct (c0 :: cr)); simpl in E;
       try (destruct (first_sentence_received l); simpl in E);
       try (destruct (tts _); simpl in E; [|discriminate]);
       try (destruct (first_audio_sent _); simpl in E) | ]);
  injection E as <- <-; simpl; rewrite ?app_nil_r;
  (split; [reflexivity | split; [reflexivity | intro Hc; first [reflexivity | discriminate]]]).
Qed.

Lemma chunk_loop_text cs : forall l s l' s',
  chunk_loop tts clock cs l s = (Ok l', s') ->
  complete_text l' = complete_text l ++ List.concat (contents cs) /\
  conversation (sess s') = conversation (sess s) /\
  ((forall ch, In ch cs -> delta_tool_calls ch = []) -> tools l' = tools l).
Proof.
  induction cs as [|ch cs IH]; intros l s l' s' E; simpl in E.
  - injection E as <- <-. simpl. rewrite app_nil_r. auto.
  - unfold bind in E.
    destruct (on_chunk tts clock ch l s) as [[l1|e] s1] eqn:E1; [|discriminate].
    destruct (on_chunk_text ch l s l1 s1 E1) as [T1 [C1 K1]].
    destruct (IH l1 s1 l' s' E) as [T2 [C2 K2]].
    split; [rewrite T2, T1; simpl; rewrite app_assoc; reflexivity|].
    split; [congruence|].
    intro Hno. rewrite K2, K1; [reflexivity | apply Hno; left; reflexivity |].
    intros c Hc. apply Hno. right. exact Hc.
Qed.

Lemma generate_full_reply f text s u s' :
  (forall ch, In ch (fst (llm (conversation (sess s) ++ [mkMessage User text]))) ->
              delta_tool_calls ch = []) ->
  generate_llm_response llm tts lookup clock (S f) text s = (Ok u, s') ->
  conversation (sess s') = conversation (sess s) ++
    [mkMessage Assistant
       (List.concat (contents (fst (llm (conversation (sess s) ++ [mkMessage User text])))))].
Proof.
  intros Hno E. cbn [generate_llm_response] in E.
  do 4 (erewrite bind_ok in E; [|reflexivity]).
  simpl in E.
  destruct (llm (conversation (sess s) ++ [mkMessage User text])) as [chunks completes].
  simpl in Hno |- *.
  unfold bind at 1 in E.
  match type of E with
  | context [chunk_loop tts clock chunks init_locals ?st] =>
      destruct (chunk_loop tts clock chunks init_locals st) as [[l|e] s5] eqn:Ec;
      [|discriminate];
      destruct (chunk_loop_text chunks init_locals st l s5 Ec) as [T1 [C1 K1]]
  end.
  simpl in T1, C1, K1. specialize (K1 Hno).
  destruct completes; [|discriminate].
  erewrite bind_ok in E; [|reflexivity].
  unfold tool_branch in E. rewrite K1 in E.
  erewrite bind_ok in E; [|reflexivity].
  cbv [bind ret emit get_sess modify_sess time_time update_latency_metric
       first_sentence_mark first_audio_gate generate_and_send_tts raise
       add_ai_message] in E.
  destruct (accumulated_text l) as [|c0 cr]; simpl in E.
  - injection E as _ <-. simpl. rewrite C1, T1. reflexivity.
  - destruct (first_sentence_received l); simpl in E;
    destruct (tts (c0 :: cr)); simpl in E; try discriminate;
    destruct (first_audio_sent _); simpl in E;
    injection E as _ <-; simpl; rewrite C1, T1; reflexivity.
Qed.

End TurnFacts.

(** ** Extra properties of the connection *)

(** The history of a connection only grows: whatever messages arrive, it
    ends as the system prompt followed by user and assistant messages, and
    [current_turn] counts exactly those messages. *)
Theorem websocket_history_append_only stt llm tts lookup clock ms :
  exists ext,
    conversation (sess (snd (websocket_endpoint stt llm tts lookup clock ms st0))) = SYSTEM :: ext /\
    Forall (fun m => role_of m <> System) ext /\
    current_turn (sess (snd (websocket_endpoint stt llm tts lookup clock ms st0))) = List.length ext.
Proof.
  unfold websocket_endpoint. erewrite bind_ok; [|reflexivity].
  match goal with
  | |- context [try_except ?m ?h ?x] =>
      destruct (grows_try_except m h (grows_serve stt llm tts lookup clock ms)
                  (fun e => grows_emit _) x) as [ext [E [F T]]]
  end.
  exists ext. rewrite E, T. simpl. auto.
Qed.

(** Whatever messages arrive, the connection never ends with a turn still
    marked as processing. *)
Theorem websocket_endpoint_ends_idle stt llm tts lookup clock ms :
  is_processing (sess (snd (websocket_endpoint stt llm tts lookup clock ms st0))) = false.
Proof.
  unfold websocket_endpoint. erewrite bind_ok; [|reflexivity].
  unfold try_except.
  match goal with
  | |- context [serve _ _ _ _ _ ms ?x] =>
      pose proof (serve_idle_flag stt llm tts lookup clock ms x eq_refl) as H;
      destruct (serve _ _ _ _ _ ms x) as [[u|e] s']
  end; simpl in *; exact H.
Qed.

(** A [stop_recording] received while idle runs one turn whose output ends
    with exactly one [processing_complete] message, and that message is the
    last one sent. *)
Theorem stop_turn_completes_once stt llm tts lookup clock s :
  is_processing (sess s) = false ->
  exists ext,
    trace (snd (handle_message stt llm tts lookup clock stop_msg s))
      = trace s ++ ext ++ [SendJson JProcessingComplete] /\
    completions ext = 0.
Proof.
  intro H. rewrite (stop_idle_trace stt llm tts lookup clock s H).
  destruct (keeps_turn_body stt llm tts lookup clock _ completions_closed
              completions_turn_event (turn_start clock s)) as [e1 [E1 P1]].
  rewrite E1. simpl.
  destruct (fst _) as [u|e].
  - exists e1. rewrite <- app_assoc. simpl. auto.
  - exists (e1 ++ [SendJson (JError (exn_str e))]). rewrite <- !app_assoc.
    split; [reflexivity|].
    apply completions_closed; [exact P1 | reflexivity].
Qed.

(** Binary frames are not accumulated: each one replaces the audio buffer,
    so when an idle session receives frames and then [stop_recording], the
    turn sends only the last frame to transcription, and that is the first
    thing it does. *)
Theorem stop_transcribes_last_frame stt llm tts lookup clock s frames a :
  is_processing (sess s) = false ->
  exists ext,
    trace (snd (serve stt llm tts lookup clock (map MBytes (frames ++ [a]) ++ [stop_msg]) s))
      = trace s ++ CallSTT a :: ext.
Proof.
  intro H. rewrite serve_frames.
  set (s1 := mkSt (set_audio_buffer a (sess s)) (trace s) (ticks s)).
  assert (H1 : is_processing (sess s1) = false) by (destruct s as [[] ? ?]; exact H).
  assert (Tr : trace (snd (serve stt llm tts lookup clock [stop_msg] s1))
               = trace (snd (handle_message stt llm tts lookup clock stop_msg s1))).
  { cbn [serve]. unfold bind.
    destruct (handle_message stt llm tts lookup clock stop_msg s1) as [[u|e] s2]; reflexivity. }
  rewrite Tr, (stop_idle_trace stt llm tts lookup clock s1 H1).
  destruct (turn_body_calls_stt stt llm tts lookup clock (turn_start clock s1)) as [ext Ex].
  rewrite Ex.
  replace (audio_buffer (sess (turn_start clock s1))) with a
    by (destruct s as [[] ? ?]; reflexivity).
  exists (ext ++ match fst (turn_body stt llm tts lookup clock (turn_start clock s1)) with
                 | Ok _ => [] | Err e => [SendJson (JError (exn_str e))] end
              ++ [SendJson JProcessingComplete]).
  simpl. rewrite <- !app_assoc. reflexivity.
Qed.

(** A text frame holding JSON that is not an object makes [data.get] raise
    [AttributeError], whose message names the value's type: the loop stops
    there, the messages after it are never read, and the socket is closed
    with [str(e)] as the reason.  The session is left as the messages
    before it made it. *)
Theorem non_dict_text_closes stt llm tts lookup clock ms1 n ms2 :
  (forall n', ~ In (MText (TNonDict n')) ms1) ->
  websocket_endpoint stt llm tts lookup clock (ms1 ++ MText (TNonDict n) :: ms2) st0 =
    (Ok tt,
     mkSt (sess (snd (serve stt llm tts lookup clock ms1 (snd (create_session clock st0)))))
          (trace (snd (serve stt llm tts lookup clock ms1 (snd (create_session clock st0))))
           ++ [Close (lit "'" ++ n ++ lit "' object has no attribute 'get'")])
          (ticks (snd (serve stt llm tts lookup clock ms1 (snd (create_session clock st0)))))).
Proof.
  intro Hn. unfold websocket_endpoint.
  rewrite (bind_ok (create_session clock) _ st0 tt (snd (create_session clock st0)) eq_refl).
  destruct (serve_app_ok stt llm tts lookup clock ms1 (MText (TNonDict n) :: ms2)
              (snd (create_session clock st0)) Hn) as [E1 _].
  unfold try_except. rewrite E1. reflexivity.
Qed.

(** With no tool call in the stream and a successful end, a turn appends
    to the history exactly one assistant message: the concatenation of all
    streamed fragments, unsanitized. *)
Theorem generate_stores_full_reply llm tts lookup clock f text s u s' :
  (forall ch, In ch (fst (llm (conversation (sess s) ++ [mkMessage User text]))) ->
              delta_tool_calls ch = []) ->
  generate_llm_response llm tts lookup clock (S f) text s = (Ok u, s') ->
  conversation (sess s') = conversation (sess s) ++
    [mkMessage Assistant
       (List.concat (contents (fst (llm (conversation (sess s) ++ [mkMessage User text])))))].
Proof. apply generate_full_reply. Qed.

Lemma stop_turn_completes_once_witness :
  is_processing (sess st0) = false /\
  exists ext,
    trace (snd (handle_message stt_hi llm_hello tts_echo lookup_row clock_ticks stop_msg st0))
      = trace st0 ++ ext ++ [SendJson JProcessingComplete] /\
    completions ext = 0.
Proof.
  split; [reflexivity|].
  apply (stop_turn_completes_once stt_hi llm_hello tts_echo lookup_row clock_ticks st0).
  reflexivity.
Defined.

Lemma stop_transcribes_last_frame_witness :
  is_processing (sess st0) = false /\
  exists ext,
    trace (snd (serve stt_hi llm_hello tts_echo lookup_row clock_ticks
                  (map MBytes ([[1%N]] ++ [[2%N]]) ++ [stop_msg]) st0))
      = trace st0 ++ CallSTT [2%N] :: ext.
Proof.
  split; [reflexivity|].
  apply (stop_transcribes_last_frame stt_hi llm_hello tts_echo lookup_row clock_ticks st0
           [[1%N]] [2%N]).
  reflexivity.
Defined.

Lemma non_dict_text_closes_witness :
  (forall n', ~ In (MText (TNonDict n')) one_turn) /\
  websocket_endpoint stt_hi llm_hello tts_echo lookup_row clock_ticks
    (one_turn ++ MText (TNonDict (lit "list")) :: [stop_msg]) st0 =
    (Ok tt,
     mkSt (sess (snd (serve stt_hi llm_hello tts_echo lookup_row clock_ticks one_turn
                        (snd (create_session clock_ticks st0)))))
          (trace (snd (serve stt_hi llm_hello tts_echo lookup_row clock_ticks one_turn
                         (snd (create_session clock_ticks st0))))
           ++ [Close (lit "'" ++ lit "list" ++ lit "' object has no attribute 'get'")])
          (ticks (snd (serve stt_hi llm_hello tts_echo lookup_row clock_ticks one_turn
                         (snd (create_session clock_ticks st0)))))).
Proof.
  assert (Hn : forall n', ~ In (MText (TNonDict n')) one_turn)
    by (intro n'; simpl; intros [Hi|[Hi|[]]]; discriminate).
  split; [exact Hn|].
  apply (non_dict_text_closes stt_hi llm_hello tts_echo lookup_row clock_ticks one_turn
           (lit "list") [stop_msg]).
  exact Hn.
Defined.

Lemma generate_stores_full_reply_witness :
  (forall ch, In ch (fst (llm_hello (conversation (sess st0) ++ [mkMessage User (lit "hi")]))) ->
              delta_tool_calls ch = []) /\
  generate_llm_response llm_hello tts_echo lookup_row clock_ticks 1 (lit "hi") st0
    = (Ok tt, snd (generate_llm_response llm_hello tts_echo lookup_row clock_ticks 1 (lit "hi") st0)) /\
  conversation (sess (snd (generate_llm_response llm_hello tts_echo lookup_row clock_ticks 1
                             (lit "hi") st0)))
    = conversation (sess st0) ++
      [mkMessage Assistant
         (List.concat (contents (fst (llm_hello (conversation (sess st0) ++ [mkMessage User (lit "hi")])))))].
Proof.
  assert (H1 : forall ch, In ch (fst (llm_hello (conversation (sess st0) ++ [mkMessage User (lit "hi")]))) ->
              delta_tool_calls ch = []).
  { intros ch Hin. simpl in Hin.
    repeat (destruct Hin as [<-|Hin]; [reflexivity|]). destruct Hin. }
  assert (H2 : generate_llm_response llm_hello tts_echo lookup_row clock_ticks 1 (lit "hi") st0
    = (Ok tt, snd (generate_llm_response llm_hello tts_echo lookup_row clock_ticks 1 (lit "hi") st0)))
    by (vm_compute; reflexivity).
  split; [exact H1|]. split; [exact H2|].
  exact (generate_stores_full_reply llm_hello tts_echo lookup_row clock_ticks 0 (lit "hi") st0 tt _ H1 H2).
Defined.
